(** * Reconciler for Kubeflow Pipelines recurring runs: a shallow embedding

    The development follows [common_python/reconcile_kfp.py]:
    - [Document]: the values produced by [yaml.safe_load] and [json.loads],
      and [compare_workflows], the tolerant structural comparator;
    - [Validator]: [validate_workflow_yaml];
    - [Reconciler]: the remote platform as explicit state, a small
      state-and-exception monad that records every remote call, and [main];
    - [Scenario]: a small configuration and platform on which the
      definitions are evaluated;
    - the modules of facts, one for each layer, and [Examples].
*)

From Stdlib Require Import ZArith List String Ascii Bool Lia Floats Permutation.
Import ListNotations.

Local Open Scope string_scope.
Local Open Scope list_scope.

(* ================================================================== *)
(** * Documents                                                        *)
(* ================================================================== *)

Module Document.

(** A parsed YAML/JSON value.  A Python [float] is an IEEE 754 binary64
    number, which is what Rocq's primitive [float] is; a Python [int] is
    unbounded.  A [dict] is kept as its list of bindings in insertion
    order; lookup returns the first binding of a key. *)
#[local] Unset Elimination Schemes.
Inductive pyval : Type :=
| PNone
| PBool (b : bool)
| PInt (z : Z)
| PFloat (f : float)
| PStr (s : string)
| PList (items : list pyval)
| PDict (bindings : list (string * pyval)).
#[local] Set Elimination Schemes.

(** The result of [type(x)]. *)
Inductive pytype : Type :=
| TNoneType | TBool | TInt | TFloat | TStr | TList | TDict.

Definition type_of (x : pyval) : pytype :=
  match x with
  | PNone => TNoneType
  | PBool _ => TBool
  | PInt _ => TInt
  | PFloat _ => TFloat
  | PStr _ => TStr
  | PList _ => TList
  | PDict _ => TDict
  end.

Definition pytype_eqb (t u : pytype) : bool :=
  match t, u with
  | TNoneType, TNoneType | TBool, TBool | TInt, TInt | TFloat, TFloat
  | TStr, TStr | TList, TList | TDict, TDict => true
  | _, _ => false
  end.

(** [x in xs] for a tuple or a set of strings. *)
Definition str_in (x : string) (xs : list string) : bool :=
  existsb (String.eqb x) xs.

(** [current_key in ignore_keys]; [current_key] is [None] at the root and
    inside lists, and [None] is not a member of a tuple of strings. *)
Definition key_in (current_key : option string) (ignore_keys : list string) : bool :=
  match current_key with
  | None => false
  | Some k => str_in k ignore_keys
  end.

(** [d.get(key)]: the value bound to [key], or Python's [None]. *)
Fixpoint dict_get (d : list (string * pyval)) (key : string) : pyval :=
  match d with
  | [] => PNone
  | (k, v) :: rest => if String.eqb k key then v else dict_get rest key
  end.

(** [d.get(key, default)]. *)
Fixpoint dict_get_default (d : list (string * pyval)) (key : string) (default : pyval) : pyval :=
  match d with
  | [] => default
  | (k, v) :: rest => if String.eqb k key then v else dict_get_default rest key default
  end.

(** [set(key for key in d if key not in ignore_keys)], as the list of the
    keys that pass the filter. *)
Definition kept_keys (ignore_keys : list string) (d : list (string * pyval)) : list string :=
  filter (fun key => negb (str_in key ignore_keys)) (map fst d).

(** [keys_1 == keys_2] for two sets of strings given by their elements. *)
Definition set_eqb (keys_1 keys_2 : list string) : bool :=
  forallb (fun k => str_in k keys_2) keys_1 && forallb (fun k => str_in k keys_1) keys_2.

(** The integer that a [bool] or an [int] is in arithmetic and in
    comparisons: [True] is [1] and [False] is [0]. *)
Definition int_of (x : pyval) : option Z :=
  match x with
  | PBool b => Some (if b then 1 else 0)%Z
  | PInt z => Some z
  | _ => None
  end.

(** [f == z] for a float and an integer: Python compares the two exact
    values, so an infinity or a NaN is equal to no integer. *)
Definition float_eqb_Z (f : float) (z : Z) : bool :=
  match Prim2SF f with
  | S754_zero _ => Z.eqb z 0
  | S754_finite s m e =>
    let signed (v : Z) := if s then Z.opp v else v in
    if (0 <=? e)%Z then Z.eqb z (signed (Z.pos m * 2 ^ e)%Z)
    else Z.eqb (Z.pos m mod 2 ^ (- e))%Z 0 && Z.eqb z (signed (Z.pos m / 2 ^ (- e))%Z)
  | _ => false
  end.

(** [float(z)] for an integer: the nearest binary64 number, ties to even;
    [None] is the [OverflowError] of an integer beyond the range. *)
Definition float_of_int (z : Z) : option float :=
  match binary_normalize prec emax z 0 false with
  | S754_infinity _ => None
  | rounded => Some (SF2Prim rounded)
  end.

(** The float that the right operand of [item_1 - item_2] stands for when
    [item_1] is a float; [None] where Python raises ([TypeError] for an
    operand that is not a number, [OverflowError]). *)
Definition as_float (x : pyval) : option float :=
  match x with
  | PFloat f => Some f
  | PBool _ | PInt _ =>
    match int_of x with
    | Some z => float_of_int z
    | None => None
    end
  | _ => None
  end.

(** [abs(item_1 - item_2) < float_tol] for a float [item_1].  Behind the
    test of the types [item_2] is a float as well. *)
Definition float_rule (float_tol item_1 : float) (item_2 : pyval) : bool :=
  match as_float item_2 with
  | Some b => (abs (item_1 - b) <? float_tol)%float
  | None => false
  end.

(** [item_1 == item_2] for an [item_1] that is [None], a [bool], an [int]
    or a [str], which is what reaches the last branch of the comparator:
    numbers are equal when their values are, so [True == 1] and
    [1 == 1.0] hold; a [str] is equal to an equal [str] only. *)
Definition scalar_eqb (item_1 item_2 : pyval) : bool :=
  match item_1, item_2 with
  | PNone, PNone => true
  | PStr a, PStr b => String.eqb a b
  | (PBool _ | PInt _), (PBool _ | PInt _) =>
    match int_of item_1, int_of item_2 with
    | Some a, Some b => Z.eqb a b
    | _, _ => false
    end
  | (PBool _ | PInt _), PFloat f =>
    match int_of item_1 with
    | Some z => float_eqb_Z f z
    | None => false
    end
  | _, _ => false
  end.

Section Comparator.

Variable ignore_keys : list string.
Variable float_tol : float.

(** [compare_recursive(item_1, item_2, current_key)].  The loop over
    [keys_1] calls [item_1.get(key)]; the lookup is written as the local
    [at_key] so that the recursive call is on a component of [item_1].  The
    positional loop over a list walks both lists, which have equal length
    when it is reached.  The branches are chosen by the type of [item_1],
    as the chain of [isinstance] does; a dict or a list meets a value of
    another type in no run, the test of the types being before. *)
Fixpoint compare_recursive (item_1 item_2 : pyval) (current_key : option string)
  {struct item_1} : bool :=
  match item_1, item_2 with
  | PNone, PNone => true
  | PNone, _ => false
  | _, PNone => false
  | _, _ =>
    if key_in current_key ignore_keys then true
    else if negb (pytype_eqb (type_of item_1) (type_of item_2)) then false
    else
      match item_1, item_2 with
      | PDict d1, PDict d2 =>
        let keys_1 := kept_keys ignore_keys d1 in
        let keys_2 := kept_keys ignore_keys d2 in
        if negb (set_eqb keys_1 keys_2) then false
        else
          forallb
            (fun key =>
               (fix at_key (bindings : list (string * pyval)) : bool :=
                  match bindings with
                  | [] => match dict_get d2 key with PNone => true | _ => false end
                  | (k, v) :: rest =>
                    if String.eqb k key
                    then compare_recursive v (dict_get d2 key) (Some key)
                    else at_key rest
                  end) d1)
            keys_1
      | PList l1, PList l2 =>
        if negb (Nat.eqb (List.length l1) (List.length l2)) then false
        else
          (fix positional (xs ys : list pyval) : bool :=
             match xs, ys with
             | x :: xs', y :: ys' => compare_recursive x y None && positional xs' ys'
             | _, _ => true
             end) l1 l2
      | PFloat a, _ => float_rule float_tol a item_2
      | PDict _, _ | PList _, _ => false
      | _, _ => scalar_eqb item_1 item_2
      end
  end.

End Comparator.

(** The default value of [ignore_keys]. *)
Definition default_ignore_keys : list string :=
  [ "pipelines.kubeflow.org/pipeline_compilation_time";
    "pipelines.kubeflow.org/kfp_sdk_version" ].

(** The default value of [float_tol]: the binary64 number that the literal
    [1e-9] denotes. *)
Definition default_float_tol : float := 0x1.12e0be826d695p-30%float.

(** [compare_workflows(workflow_1, workflow_2, ignore_keys, float_tol)]. *)
Definition compare_workflows (workflow_1 workflow_2 : pyval)
  (ignore_keys : list string) (float_tol : float) : bool :=
  compare_recursive ignore_keys float_tol workflow_1 workflow_2 None.

(** Every float that the comparator can reach is finite (neither NaN nor an
    infinity): the floats below a key of [ignore_keys] are not looked at. *)
Fixpoint finite_floats (ignore_keys : list string) (x : pyval) : bool :=
  match x with
  | PFloat f => is_finite f
  | PList items => forallb (finite_floats ignore_keys) items
  | PDict bindings =>
    (fix values (bs : list (string * pyval)) : bool :=
       match bs with
       | [] => true
       | (k, v) :: rest =>
         (str_in k ignore_keys || finite_floats ignore_keys v) && values rest
       end) bindings
  | _ => true
  end.

(** [d] has a binding for [key]. *)
Definition has_key (d : list (string * pyval)) (key : string) : bool :=
  str_in key (map fst d).

(** Two documents that differ only in subtrees rooted at the key [k]: they
    are the same value, or two lists that are so related position by
    position, or two dicts that bind the same keys other than [k] to values
    that are so related.  What is bound to [k], and whether [k] is bound at
    all, is left free at every depth. *)
#[local] Unset Elimination Schemes.
Inductive differ_only_at (k : string) : pyval -> pyval -> Prop :=
| differ_same x : differ_only_at k x x
| differ_list l1 l2 :
    Forall2 (differ_only_at k) l1 l2 ->
    differ_only_at k (PList l1) (PList l2)
| differ_dict d1 d2 :
    (forall key, key <> k ->
       has_key d1 key = has_key d2 key /\
       differ_only_at k (dict_get d1 key) (dict_get d2 key)) ->
    differ_only_at k (PDict d1) (PDict d2).
#[local] Set Elimination Schemes.

End Document.

(* ================================================================== *)
(** * Python run-time behaviour used by the scripts                    *)
(* ================================================================== *)

Module Python.

Import Document.

(** The exceptions that leave a function of the script.  A [ValueError]
    carries the place it is raised at. *)
Inductive value_error : Type :=
| DuplicateJobName
| UnknownExperiment
| PipelineSourceUnavailable
| NotAWorkflow
| NotAYamlFile
| DuplicateParameter
| ParameterFileUnavailable
| ParameterWithoutValue
| MissingParameters
| UnexpectedParameters
| NoWorkflowManifest
| NoExperimentReference.

Inductive exn : Type :=
| ValueError (what : value_error)
| TypeError
| AttributeError
| KeyError
| JSONDecodeError
| YAMLError
| ApiException.

(** A call either returns or raises. *)
Inductive outcome (A : Type) : Type :=
| Ok (a : A)
| Raise (e : exn).
Arguments Ok {A} a.
Arguments Raise {A} e.

Definition bind_outcome {A B} (m : outcome A) (k : A -> outcome B) : outcome B :=
  match m with
  | Ok a => k a
  | Raise e => Raise e
  end.

(** [bool(x)]: the truth value of a document in [if x:] and [x or y]. *)
Definition truthy (x : pyval) : bool :=
  match x with
  | PNone => false
  | PBool b => b
  | PInt z => negb (Z.eqb z 0)
  | PFloat f => negb (f =? 0)%float
  | PStr s => negb (String.eqb s "")
  | PList items => match items with [] => false | _ => true end
  | PDict bindings => match bindings with [] => false | _ => true end
  end.

(** [x != "literal"]. *)
Definition differs_from_str (x : pyval) (literal : string) : bool :=
  match x with
  | PStr s => negb (String.eqb s literal)
  | _ => true
  end.

(** Lists and dicts cannot be keys of a dict. *)
Definition hashable (x : pyval) : bool :=
  match x with
  | PList _ | PDict _ => false
  | _ => true
  end.

(** Two hashable values are the same key of a dict when they are equal:
    numbers by value, so [1], [True] and [1.0] are one key.  The keys of
    the script are values of one [json.loads], in which every [NaN] is
    one and the same object, and an object is the same key as itself. *)
Definition key_eqb (x y : pyval) : bool :=
  match x, y with
  | PFloat a, PFloat b => (a =? b)%float || (is_nan a && is_nan b)
  | PFloat a, (PBool _ | PInt _) =>
    match int_of y with
    | Some z => float_eqb_Z a z
    | None => false
    end
  | _, _ => scalar_eqb x y
  end.

(** [d[key] = value] on a dict with arbitrary hashable keys: an existing
    binding keeps its place, a new one goes last. *)
Fixpoint setitem (d : list (pyval * pyval)) (key value : pyval) : list (pyval * pyval) :=
  match d with
  | [] => [(key, value)]
  | (k, v) :: rest =>
    if key_eqb k key then (k, value) :: rest else (k, v) :: setitem rest key value
  end.

(** [d[key]] for a key known to be bound; [None] stands for a missing key. *)
Fixpoint getitem (d : list (pyval * pyval)) (key : pyval) : option pyval :=
  match d with
  | [] => None
  | (k, v) :: rest => if key_eqb k key then Some v else getitem rest key
  end.

(** The characters of a string, each as a string. *)
Fixpoint characters (s : string) : list pyval :=
  match s with
  | EmptyString => []
  | String c rest => PStr (String c EmptyString) :: characters rest
  end.

(** [for x in value]: the items of a list, the keys of a dict, the
    characters of a string; anything else is not iterable. *)
Definition iterate (value : pyval) : outcome (list pyval) :=
  match value with
  | PList items => Ok items
  | PDict bindings => Ok (map (fun kv => PStr (fst kv)) bindings)
  | PStr s => Ok (characters s)
  | _ => Raise TypeError
  end.

(** [value.get]: only a dict has the method. *)
Definition as_dict (value : pyval) : outcome (list (string * pyval)) :=
  match value with
  | PDict bindings => Ok bindings
  | _ => Raise AttributeError
  end.

(** [s.endswith(suffix)]. *)
Definition endswith (s suffix : string) : bool :=
  let n := String.length s in
  let m := String.length suffix in
  Nat.leb m n && String.eqb (substring (n - m) m s) suffix.

(** [xs[start:]] for a list and an integer [start]: a negative [start]
    counts from the end, and both ends are clipped. *)
Definition slice_from {A} (xs : list A) (start : Z) : list A :=
  if (start <? 0)%Z
  then skipn (Z.to_nat (Z.max 0 (Z.of_nat (List.length xs) + start))) xs
  else skipn (Z.to_nat start) xs.

End Python.

(* ================================================================== *)
(** * The workflow validator                                           *)
(* ================================================================== *)

Module Validator.

Import Document Python.

(** What [validate_workflow_yaml] hands back: the annotated pair, or the
    lone [False] of its first [return]. *)
Inductive returned : Type :=
| ReturnedBool (b : bool)
| ReturnedPair (workflow_is_valid : bool) (input_parameters : list (pyval * pyval)).

Section Parsers.

(** [yaml.safe_load] and [json.loads]; [None] is a syntax error
    ([yaml.YAMLError], [json.JSONDecodeError]). *)
Variable yaml_safe_load : string -> option pyval.
Variable json_loads : string -> option pyval.

(** The loop over [pipeline_spec_parameters]; the first component of the
    result is [valid_workflow]. *)
Fixpoint extract_input_parameters (valid_workflow : bool) (parameters : list pyval)
  (input_parameters : list (pyval * pyval)) : outcome (bool * list (pyval * pyval)) :=
  match parameters with
  | [] => Ok (valid_workflow, input_parameters)
  | parameter :: rest =>
    bind_outcome (as_dict parameter) (fun fields =>
      let parameter_name := dict_get_default fields "name" PNone in
      let parameter_optional := dict_get_default fields "optional" (PBool false) in
      match parameter_name with
      | PNone => Ok (false, input_parameters)
      | _ =>
        if hashable parameter_name
        then extract_input_parameters valid_workflow rest
               (setitem input_parameters parameter_name parameter_optional)
        else Raise TypeError
      end)
  end.

(** [json.loads(pipeline_spec_json)] inside its [try]: [Ok None] is the
    caught [JSONDecodeError]; a value that is not a string is a
    [TypeError], which is not caught. *)
Definition load_pipeline_spec (pipeline_spec_json : pyval) : outcome (option pyval) :=
  match pipeline_spec_json with
  | PStr text => Ok (json_loads text)
  | _ => Raise TypeError
  end.

Definition validate_workflow_yaml (workflow_yaml : string) : outcome returned :=
  match yaml_safe_load workflow_yaml with
  | None => Ok (ReturnedBool false)
  | Some yaml_data =>
    bind_outcome (as_dict yaml_data) (fun top =>
      let api_version := dict_get_default top "apiVersion" PNone in
      let kind := dict_get_default top "kind" PNone in
      let metadata := dict_get_default top "metadata" PNone in
      let spec := dict_get_default top "spec" PNone in
      let valid_workflow := true in
      let valid_workflow :=
        if differs_from_str api_version "argoproj.io/v1alpha1" then false else valid_workflow in
      let valid_workflow :=
        if differs_from_str kind "Workflow" then false else valid_workflow in
      let valid_workflow :=
        match metadata with PNone => false | _ => valid_workflow end in
      let valid_workflow :=
        match spec with PNone => false | _ => valid_workflow end in
      let input_parameters := [] in
      if valid_workflow then
        bind_outcome (as_dict metadata) (fun metadata_fields =>
        bind_outcome (as_dict (dict_get_default metadata_fields "annotations" (PDict [])))
          (fun annotations =>
        let pipeline_spec_json :=
          dict_get_default annotations "pipelines.kubeflow.org/pipeline_spec" PNone in
        let valid_workflow :=
          match pipeline_spec_json with PNone => false | _ => valid_workflow end in
        bind_outcome
          (if truthy pipeline_spec_json
           then
             bind_outcome (load_pipeline_spec pipeline_spec_json) (fun loaded =>
               match loaded with
               | Some pipeline_spec => Ok (valid_workflow, pipeline_spec)
               | None => Ok (false, PNone)
               end)
           else Ok (valid_workflow, PNone))
          (fun '(valid_workflow, pipeline_spec) =>
        if truthy pipeline_spec then
          bind_outcome (as_dict pipeline_spec) (fun pipeline_spec_fields =>
          bind_outcome (iterate (dict_get_default pipeline_spec_fields "inputs" (PList [])))
            (fun pipeline_spec_parameters =>
          bind_outcome
            (extract_input_parameters valid_workflow pipeline_spec_parameters input_parameters)
            (fun '(valid_workflow, input_parameters) =>
               Ok (ReturnedPair valid_workflow input_parameters))))
        else Ok (ReturnedPair valid_workflow input_parameters))))
      else Ok (ReturnedPair valid_workflow input_parameters))
  end.

End Parsers.

End Validator.

(* ================================================================== *)
(** * Versioned names of recurring runs                                *)
(* ================================================================== *)

Module Naming.

Definition newline : ascii := "010"%char.

Definition is_digit (c : ascii) : bool :=
  let n := nat_of_ascii c in Nat.leb 48 n && Nat.leb n 57.

(** The class [[0-9]] and the literal characters of the timestamp part of
    the pattern, position by position: [YYYY-MM-DDTHH-MM-SSZ]. *)
Inductive shape : Type := Digit | Literal (c : ascii).

Definition timestamp_shape : list shape :=
  [ Digit; Digit; Digit; Digit; Literal "-"; Digit; Digit; Literal "-"; Digit; Digit;
    Literal "T"; Digit; Digit; Literal "-"; Digit; Digit; Literal "-"; Digit; Digit;
    Literal "Z" ]%char.

Fixpoint has_shape (shapes : list shape) (s : string) : bool :=
  match shapes, s with
  | [], EmptyString => true
  | Digit :: shapes', String c s' => is_digit c && has_shape shapes' s'
  | Literal l :: shapes', String c s' => Ascii.eqb c l && has_shape shapes' s'
  | _, _ => false
  end.

(** No character of [s] is a newline: what a run of [.] can match. *)
Fixpoint no_newline (s : string) : bool :=
  match s with
  | EmptyString => true
  | String c s' => negb (Ascii.eqb c newline) && no_newline s'
  end.

(** [s] without one final newline, if it has one: [$] matches at the end
    of the string and also just before a newline that ends the string. *)
Definition before_final_newline (s : string) : string :=
  let n := String.length s in
  if String.eqb (substring (n - 1) 1 s) (String newline EmptyString)
  then substring 0 (n - 1) s
  else s.

(** [pattern.match(name)]: the pattern is the prefix [GIT::] after [^],
    the group [job_name] (any characters but newlines, greedy), the
    separator [__], the group [timestamp] and [$].  The result is the
    pair of the two groups, if there is a match.  The timestamp has a
    fixed length and ends where [$] matches, so the split is forced. *)
Definition pattern_match (name : string) : option (string * string) :=
  if negb (String.prefix "GIT::" name) then None
  else
    let rest := substring 5 (String.length name - 5) name in
    let body := before_final_newline rest in
    let n := String.length body in
    if Nat.ltb n 22 then None
    else
      let job_name := substring 0 (n - 22) body in
      let separator := substring (n - 22) 2 body in
      let timestamp := substring (n - 20) 20 body in
      if String.eqb separator "__" && has_shape timestamp_shape timestamp
         && no_newline job_name
      then Some (job_name, timestamp)
      else None.

(** [match and match.group("job_name") == job_name]. *)
Definition matches_job (job_name name : string) : bool :=
  match pattern_match name with
  | Some (group_job_name, _) => String.eqb group_job_name job_name
  | None => false
  end.

(** [pattern.match(j.name).group("timestamp")], the sort key. *)
Definition timestamp_of (name : string) : string :=
  match pattern_match name with
  | Some (_, timestamp) => timestamp
  | None => ""
  end.

(** A point in time, as [datetime.now(timezone.utc)] returns it. *)
Record datetime : Type := {
  year : nat; month : nat; day : nat; hour : nat; minute : nat; second : nat
}.

Definition digit (n : nat) : ascii := ascii_of_nat (48 + n mod 10).

(** The last [width] decimal digits of [n], zero padded. *)
Fixpoint zero_padded (width n : nat) : string :=
  match width with
  | 0 => ""
  | S w => zero_padded w (n / 10) ++ String (digit n) ""
  end.

(** [strftime("%Y-%m-%dT%H-%M-%SZ")], for a year of four digits. *)
Definition strftime (t : datetime) : string :=
  zero_padded 4 (year t) ++ "-" ++ zero_padded 2 (month t) ++ "-" ++ zero_padded 2 (day t)
  ++ "T" ++ zero_padded 2 (hour t) ++ "-" ++ zero_padded 2 (minute t) ++ "-"
  ++ zero_padded 2 (second t) ++ "Z".

(** [get_new_job_name(job_name)] at the time [now]. *)
Definition get_new_job_name (now : datetime) (job_name : string) : string :=
  "GIT::" ++ job_name ++ "__" ++ strftime now.

End Naming.

(* ================================================================== *)
(** * The remote platform                                              *)
(* ================================================================== *)

(** An identifier that the server assigns to an experiment or a job. *)
Definition ident : Type := nat.

Module ApiExperiment.

Record t : Type := {
  id : ident;
  name : string;
  description : option string;
  archived : bool
}.

End ApiExperiment.

Module ApiJob.

Inductive ApiResourceType : Type := EXPERIMENT | NAMESPACE | PIPELINE_VERSION.

(** [ref.key.type] and [ref.key.id]. *)
Record ApiResourceReference : Type := {
  key_type : ApiResourceType;
  key_id : ident
}.

Record ApiParameter : Type := {
  parameter_name : string;
  parameter_value : option string
}.

(** A [start_time] or [end_time] is kept as the text that [isoformat()]
    gives for it; [interval_second] as the integer that [int()] gives. *)
Record ApiCronSchedule : Type := {
  cron_start_time : option string;
  cron_end_time : option string;
  cron : option string
}.

Record ApiPeriodicSchedule : Type := {
  periodic_start_time : option string;
  periodic_end_time : option string;
  interval_second : option Z
}.

Record ApiTrigger : Type := {
  cron_schedule : option ApiCronSchedule;
  periodic_schedule : option ApiPeriodicSchedule
}.

Record ApiPipelineSpec : Type := {
  parameters : option (list ApiParameter);
  workflow_manifest : option string
}.

Record t : Type := {
  id : ident;
  name : string;
  enabled : bool;
  description : option string;
  resource_references : list ApiResourceReference;
  max_concurrency : Z;
  service_account : string;
  pipeline_spec : ApiPipelineSpec;
  no_catchup : option bool;
  trigger : ApiTrigger
}.

Definition with_enabled (b : bool) (j : t) : t :=
  {| id := id j; name := name j; enabled := b; description := description j;
     resource_references := resource_references j; max_concurrency := max_concurrency j;
     service_account := service_account j; pipeline_spec := pipeline_spec j;
     no_catchup := no_catchup j; trigger := trigger j |}.

End ApiJob.

Module Platform.

Import Python.

(** The arguments of [create_recurring_run]. *)
Record create_arguments : Type := {
  arg_enabled : bool;
  arg_experiment_id : option ident;
  arg_job_name : string;
  arg_description : option string;
  arg_start_time : option string;
  arg_end_time : option string;
  arg_interval_second : option Z;
  arg_cron_expression : option string;
  arg_max_concurrency : Z;
  arg_no_catchup : bool;
  arg_params : list (string * string);
  arg_pipeline_package_path : string;
  arg_service_account : string
}.

(** The calls that leave the process. *)
Inductive call : Type :=
| GithubDownload (github_owner github_repo git_reference file_path : string)
| GetExperiment (experiment_name : string)
| CreateExperiment (experiment_name description : string)
| UnarchiveExperiment (id : ident)
| ListJobs (page : nat)
| CreateRecurringRun (arguments : create_arguments)
| EnableJob (id : ident)
| DisableJob (id : ident)
| DeleteJob (id : ident).

(** The calls that change what the platform stores. *)
Definition mutating (c : call) : bool :=
  match c with
  | CreateExperiment _ _ | UnarchiveExperiment _ | CreateRecurringRun _
  | EnableJob _ | DisableJob _ | DeleteJob _ => true
  | GithubDownload _ _ _ _ | GetExperiment _ | ListJobs _ => false
  end.

(** The calls on recurring runs. *)
Definition on_jobs (c : call) : bool :=
  match c with
  | ListJobs _ | CreateRecurringRun _ | EnableJob _ | DisableJob _ | DeleteJob _ => true
  | _ => false
  end.

(** The calls on experiments. *)
Definition on_experiments (c : call) : bool :=
  match c with
  | GetExperiment _ | CreateExperiment _ _ | UnarchiveExperiment _ => true
  | _ => false
  end.

Definition is_download (c : call) : bool :=
  match c with
  | GithubDownload _ _ _ _ => true
  | _ => false
  end.

(** What the server stores for one namespace.  [jobs] is in the order of
    a listing sorted by [created_at desc].  [failing_after] makes the
    server unreliable: [Some n] answers [n] more calls and fails the next
    one; [None] answers every call. *)
Record t : Type := {
  experiments : list ApiExperiment.t;
  jobs : list ApiJob.t;
  next_id : ident;
  failing_after : option nat
}.

Definition with_jobs (js : list ApiJob.t) (p : t) : t :=
  {| experiments := experiments p; jobs := js; next_id := next_id p;
     failing_after := failing_after p |}.

Definition with_experiments (es : list ApiExperiment.t) (p : t) : t :=
  {| experiments := es; jobs := jobs p; next_id := next_id p;
     failing_after := failing_after p |}.

Definition with_next_id (n : ident) (p : t) : t :=
  {| experiments := experiments p; jobs := jobs p; next_id := n;
     failing_after := failing_after p |}.

Definition with_failing_after (b : option nat) (p : t) : t :=
  {| experiments := experiments p; jobs := jobs p; next_id := next_id p;
     failing_after := b |}.

Definition find_job (id : ident) (p : t) : option ApiJob.t :=
  find (fun j => Nat.eqb (ApiJob.id j) id) (jobs p).

(** The server side of [enable_job] and [disable_job]. *)
Definition set_enabled (id : ident) (b : bool) (p : t) : outcome unit * t :=
  match find_job id p with
  | None => (Raise ApiException, p)
  | Some _ =>
    (Ok tt,
     with_jobs
       (map (fun j => if Nat.eqb (ApiJob.id j) id then ApiJob.with_enabled b j else j) (jobs p))
       p)
  end.

(** The server side of [delete_job]. *)
Definition delete (id : ident) (p : t) : outcome unit * t :=
  match find_job id p with
  | None => (Raise ApiException, p)
  | Some _ =>
    (Ok tt, with_jobs (filter (fun j => negb (Nat.eqb (ApiJob.id j) id)) (jobs p)) p)
  end.

(** The trigger that the client builds from [interval_second] and
    [cron_expression]. *)
Definition trigger_of (a : create_arguments) : ApiJob.ApiTrigger :=
  {| ApiJob.cron_schedule :=
       match arg_cron_expression a with
       | Some expression =>
         Some {| ApiJob.cron_start_time := arg_start_time a;
                 ApiJob.cron_end_time := arg_end_time a;
                 ApiJob.cron := Some expression |}
       | None => None
       end;
     ApiJob.periodic_schedule :=
       match arg_interval_second a with
       | Some seconds =>
         Some {| ApiJob.periodic_start_time := arg_start_time a;
                 ApiJob.periodic_end_time := arg_end_time a;
                 ApiJob.interval_second := Some seconds |}
       | None => None
       end |}.

(** An empty string is stored as no value. *)
Definition stored_text (text : string) : option string :=
  if String.eqb text "" then None else Some text.

Section Server.

(** The manifest that the server stores for the package at a path. *)
Variable manifest_of_package : string -> option string.

(** The job that the server stores for [create_recurring_run]: it gets a
    fresh identifier and is the newest job of the namespace. *)
Definition new_job (a : create_arguments) (p : t) : ApiJob.t :=
  {| ApiJob.id := next_id p;
     ApiJob.name := arg_job_name a;
     ApiJob.enabled := arg_enabled a;
     ApiJob.description := arg_description a;
     ApiJob.resource_references :=
       match arg_experiment_id a with
       | Some experiment_id =>
         [ {| ApiJob.key_type := ApiJob.EXPERIMENT; ApiJob.key_id := experiment_id |} ]
       | None => []
       end;
     ApiJob.max_concurrency := arg_max_concurrency a;
     ApiJob.service_account := arg_service_account a;
     ApiJob.pipeline_spec :=
       {| ApiJob.parameters :=
            Some (map (fun kv => {| ApiJob.parameter_name := fst kv;
                                    ApiJob.parameter_value := stored_text (snd kv) |})
                      (arg_params a));
          ApiJob.workflow_manifest := manifest_of_package (arg_pipeline_package_path a) |};
     ApiJob.no_catchup := Some (arg_no_catchup a);
     ApiJob.trigger := trigger_of a |}.

Definition create (a : create_arguments) (p : t) : outcome ApiJob.t * t :=
  let j := new_job a p in
  (Ok j, with_next_id (S (next_id p)) (with_jobs (j :: jobs p) p)).

End Server.

(** The server side of [get_experiment]: [None] is the [ValueError] that
    says that no experiment has the name. *)
Definition get_experiment (experiment_name : string) (p : t)
  : outcome (option ApiExperiment.t) * t :=
  (Ok (find (fun e => String.eqb (ApiExperiment.name e) experiment_name) (experiments p)), p).

Definition create_experiment (experiment_name description : string) (p : t)
  : outcome ApiExperiment.t * t :=
  let e := {| ApiExperiment.id := next_id p;
              ApiExperiment.name := experiment_name;
              ApiExperiment.description := stored_text description;
              ApiExperiment.archived := false |} in
  (Ok e, with_next_id (S (next_id p)) (with_experiments (experiments p ++ [e]) p)).

Definition unarchive_experiment (id : ident) (p : t) : outcome unit * t :=
  if existsb (fun e => Nat.eqb (ApiExperiment.id e) id) (experiments p)
  then
    (Ok tt,
     with_experiments
       (map (fun e =>
               if Nat.eqb (ApiExperiment.id e) id
               then {| ApiExperiment.id := ApiExperiment.id e;
                       ApiExperiment.name := ApiExperiment.name e;
                       ApiExperiment.description := ApiExperiment.description e;
                       ApiExperiment.archived := false |}
               else e)
            (experiments p))
       p)
  else (Raise ApiException, p).

(** The pages of a listing with [page_size] jobs per page; a listing of
    nothing is one empty page. *)
Fixpoint pages_from {A} (page_size room : nat) (page : list A) (xs : list A)
  : list (list A) :=
  match xs with
  | [] => [rev page]
  | x :: rest =>
    match room with
    | 0 => rev page :: pages_from page_size (page_size - 1) [x] rest
    | S room' => pages_from page_size room' (x :: page) rest
    end
  end.

Definition pages {A} (page_size : nat) (xs : list A) : list (list A) :=
  pages_from page_size page_size [] xs.

Definition page_size : nat := 100.

(** The server side of [list_jobs]: the jobs of a page. *)
Definition list_jobs (page : nat) (p : t) : outcome (list ApiJob.t) * t :=
  (Ok (nth page (pages page_size (jobs p)) []), p).

End Platform.

(* ================================================================== *)
(** * The reconciler                                                   *)
(* ================================================================== *)

Module Reconciler.

Import Document Python Naming Platform.

(** ** The configuration, after schema validation *)

(** An entry of [experiments.yaml]. *)
Record ExperimentSpec : Type := {
  experiment_name : string;
  experiment_description : option string
}.

Record PipelineSource : Type := {
  pipeline_source_github_owner : string;
  pipeline_source_github_repo : string;
  pipeline_source_git_reference : string;
  pipeline_source_file_path : string
}.

Record ValueFrom : Type := {
  github_owner : option string;
  github_repo : option string;
  git_reference : option string;
  file_path : string
}.

Record PipelineParameter : Type := {
  param_name : string;
  param_value : option string;
  param_value_from : option ValueFrom
}.

Record Trigger : Type := {
  job_trigger_catchup : bool;
  job_trigger_start_date : option string;
  job_trigger_end_date : option string;
  job_trigger_cron : option string;
  job_trigger_interval_seconds : option Z
}.

Record Job : Type := {
  job_enabled : bool;
  job_name : string;
  job_description : option string;
  job_experiment : string;
  job_max_concurrency : Z;
  job_service_account : option string;
  job_trigger : Trigger
}.

(** An entry of [recurring_runs.yaml]; [keep_history] is [None] when the
    key is absent. *)
Record RecurringRunSpec : Type := {
  pipeline_source : PipelineSource;
  pipeline_parameters : list PipelineParameter;
  job : Job;
  keep_history : option Z
}.

(** An entry after validation: the three keys that validation adds to its
    [pipeline_source].  Every entry has a [pipeline_source] mapping of its
    own. *)
Record ValidatedRun : Type := {
  recurring_run_spec : RecurringRunSpec;
  pipeline_package_path : string;
  workflow_yaml : string;
  pipeline_parameters_map : list (string * string)
}.

(** The command line. *)
Record Arguments : Type := {
  dry_run : bool;
  kfp_default_runner_sa : string
}.

(** What the process reads and does not change: GitHub through
    [download_github_file] ([None] when the reference or the file cannot be
    fetched, else the path of the cached file), the file cache, the two
    parsers, and the manifest that the server derives from a package. *)
Record Environment : Type := {
  github : string -> string -> string -> string -> option string;
  read_file : string -> string;
  yaml_safe_load : string -> option pyval;
  json_loads : string -> option pyval;
  manifest_of_package : string -> option string
}.

(** ** Dicts with string keys and string or identifier values *)

Fixpoint lookup {V} (d : list (string * V)) (key : string) : option V :=
  match d with
  | [] => None
  | (k, v) :: rest => if String.eqb k key then Some v else lookup rest key
  end.

(** [d[key] = value]. *)
Fixpoint assign {V} (d : list (string * V)) (key : string) (value : V) : list (string * V) :=
  match d with
  | [] => [(key, value)]
  | (k, v) :: rest =>
    if String.eqb k key then (k, value) :: rest else (k, v) :: assign rest key value
  end.

(** [key in d]. *)
Definition bound {V} (d : list (string * V)) (key : string) : bool :=
  match lookup d key with
  | Some _ => true
  | None => false
  end.

(** [d1 != d2] negated, for two dicts from strings to strings. *)
Definition same_dict (d1 d2 : list (string * string)) : bool :=
  forallb (fun kv => match lookup d2 (fst kv) with
                     | Some v => String.eqb v (snd kv)
                     | None => false
                     end) d1
  && forallb (fun kv => bound d1 (fst kv)) d2.

Definition same_option {A} (eqb : A -> A -> bool) (x y : option A) : bool :=
  match x, y with
  | None, None => true
  | Some a, Some b => eqb a b
  | _, _ => false
  end.

(** ** The state of a run and its monad *)

(** The platform, the calls made so far (oldest first) and the wall clock. *)
Record state : Type := {
  remote : Platform.t;
  calls : list call;
  now : datetime
}.

Definition M (A : Type) : Type := state -> outcome A * state.

Definition ret {A} (a : A) : M A := fun s => (Ok a, s).

Definition raise {A} (e : exn) : M A := fun s => (Raise e, s).

Definition bind {A B} (m : M A) (k : A -> M B) : M B :=
  fun s =>
    match m s with
    | (Ok a, s') => k a s'
    | (Raise e, s') => (Raise e, s')
    end.

Definition lift {A} (r : outcome A) : M A := fun s => (r, s).

#[local] Notation "x <- m ;; k" := (bind m (fun x => k))
  (at level 61, m at next level, right associativity).
#[local] Notation "m ;; k" := (bind m (fun _ => k))
  (at level 61, right associativity).

(** [for x in xs: body(x)]. *)
Fixpoint for_each {A} (xs : list A) (body : A -> M unit) : M unit :=
  match xs with
  | [] => ret tt
  | x :: rest => body x ;; for_each rest body
  end.

Definition logged (c : call) (s : state) : state :=
  {| remote := remote s; calls := calls s ++ [c]; now := now s |}.

(** A call to the platform: it is recorded, and the server answers it
    unless it is the call that fails. *)
Definition api_call {A} (c : call) (serve : Platform.t -> outcome A * Platform.t) : M A :=
  fun s =>
    match failing_after (remote s) with
    | Some 0 => (Raise ApiException, logged c s)
    | budget =>
      let '(r, p) := serve (with_failing_after (option_map Nat.pred budget) (remote s)) in
      (r, {| remote := p; calls := calls s ++ [c]; now := now s |})
    end.

Section Run.

Variable env : Environment.
Variable args : Arguments.

(** [download_github_file]: the path of the cached file, or [None]. *)
Definition download_github_file (owner repo reference path : string) : M (option string) :=
  fun s => (Ok (github env owner repo reference path),
            logged (GithubDownload owner repo reference path) s).

Definition disable_job (id : ident) : M unit :=
  api_call (DisableJob id) (Platform.set_enabled id false).

Definition enable_job (id : ident) : M unit :=
  api_call (EnableJob id) (Platform.set_enabled id true).

Definition delete_job (id : ident) : M unit :=
  api_call (DeleteJob id) (Platform.delete id).

Definition create_recurring_run (a : create_arguments) : M ApiJob.t :=
  api_call (CreateRecurringRun a) (Platform.create (manifest_of_package env) a).

(** ** [get_existing_recurring_runs] *)

(** The insertion of [sort(key=timestamp, reverse=True)], which is stable:
    a run goes before the first run whose timestamp is not greater. *)
Fixpoint insert_run (j : ApiJob.t) (sorted : list ApiJob.t) : list ApiJob.t :=
  match sorted with
  | [] => [j]
  | k :: rest =>
    if String.ltb (timestamp_of (ApiJob.name j)) (timestamp_of (ApiJob.name k))
    then k :: insert_run j rest
    else j :: sorted
  end.

Definition newest_first (recurring_runs : list ApiJob.t) : list ApiJob.t :=
  fold_right insert_run [] recurring_runs.

(** The body of the [while True] loop for the pages of a listing. *)
Fixpoint read_pages (job_name : string) (page_tokens : list nat)
  (recurring_runs : list ApiJob.t) : M (list ApiJob.t) :=
  match page_tokens with
  | [] => ret recurring_runs
  | page :: rest =>
    response_jobs <- api_call (ListJobs page) (Platform.list_jobs page) ;;
    read_pages job_name rest
      (recurring_runs ++ filter (fun j => matches_job job_name (ApiJob.name j)) response_jobs)
  end.

(** The loop ends with the page that carries no [next_page_token]; the
    tokens are the numbers of the pages of the listing, which no call of
    the loop changes. *)
Definition get_existing_recurring_runs (job_name : string) : M (list ApiJob.t) :=
  fun s =>
    (recurring_runs <-
       read_pages job_name
         (seq 0 (List.length (Platform.pages page_size (jobs (remote s))))) [] ;;
     ret (newest_first recurring_runs)) s.

(** ** [compare_api_job] *)

(** The [for ... else] over [resource_references]. *)
Fixpoint experiment_reference (references : list ApiJob.ApiResourceReference) : option ident :=
  match references with
  | [] => None
  | ref :: rest =>
    match ApiJob.key_type ref with
    | ApiJob.EXPERIMENT => Some (ApiJob.key_id ref)
    | _ => experiment_reference rest
    end
  end.

Definition text_or_empty (value : option string) : string :=
  match value with
  | Some text => text
  | None => ""
  end.

Definition compare_api_job
  (api_job : ApiJob.t)
  (workflow_yaml : string)
  (job_description : option string)
  (job_experiment_id : option ident)
  (job_max_concurrency : Z)
  (job_service_account : string)
  (job_parameters : list (string * string))
  (job_trigger_catchup : bool)
  (job_trigger_start_date job_trigger_end_date job_trigger_cron : option string)
  (job_trigger_interval_seconds : option Z) : outcome bool :=
  let api_pipeline_spec := ApiJob.pipeline_spec api_job in
  let api_parameters_list :=
    match ApiJob.parameters api_pipeline_spec with
    | Some parameters => parameters
    | None => []
    end in
  let api_trigger := ApiJob.trigger api_job in
  let api_cron_schedule := ApiJob.cron_schedule api_trigger in
  let api_periodic_schedule := ApiJob.periodic_schedule api_trigger in
  let api_workflow_json := text_or_empty (ApiJob.workflow_manifest api_pipeline_spec) in
  if String.eqb api_workflow_json "" then Raise (ValueError NoWorkflowManifest)
  else
    let api_description := ApiJob.description api_job in
    match experiment_reference (ApiJob.resource_references api_job) with
    | None => Raise (ValueError NoExperimentReference)
    | Some api_experiment_id =>
      let api_max_concurrency := ApiJob.max_concurrency api_job in
      let api_service_account := ApiJob.service_account api_job in
      let api_parameters :=
        fold_left
          (fun d p => assign d (ApiJob.parameter_name p) (text_or_empty (ApiJob.parameter_value p)))
          api_parameters_list [] in
      let api_trigger_catchup :=
        negb (match ApiJob.no_catchup api_job with Some b => b | None => false end) in
      let '(api_trigger_start_date, api_trigger_end_date, api_trigger_cron,
            api_trigger_interval_seconds) :=
        match api_periodic_schedule, api_cron_schedule with
        | Some periodic, _ =>
          (ApiJob.periodic_start_time periodic, ApiJob.periodic_end_time periodic,
           @None string, ApiJob.interval_second periodic)
        | None, Some cron =>
          (ApiJob.cron_start_time cron, ApiJob.cron_end_time cron, ApiJob.cron cron, @None Z)
        | None, None => (None, None, None, None)
        end in
      let found_change := false in
      let found_change :=
        if negb (same_option String.eqb api_description job_description)
        then true else found_change in
      let found_change :=
        if negb (same_option Nat.eqb (Some api_experiment_id) job_experiment_id)
        then true else found_change in
      let found_change :=
        if negb (Z.eqb api_max_concurrency job_max_concurrency) then true else found_change in
      let found_change :=
        if negb (String.eqb api_service_account job_service_account)
        then true else found_change in
      let found_change :=
        if negb (same_dict api_parameters job_parameters) then true else found_change in
      let found_change :=
        if negb (Bool.eqb api_trigger_catchup job_trigger_catchup) then true else found_change in
      let found_change :=
        if negb (same_option String.eqb api_trigger_start_date job_trigger_start_date)
        then true else found_change in
      let found_change :=
        if negb (same_option String.eqb api_trigger_end_date job_trigger_end_date)
        then true else found_change in
      let found_change :=
        if negb (same_option String.eqb api_trigger_cron job_trigger_cron)
        then true else found_change in
      let found_change :=
        if negb (same_option Z.eqb api_trigger_interval_seconds job_trigger_interval_seconds)
        then true else found_change in
      match json_loads env api_workflow_json with
      | None => Raise JSONDecodeError
      | Some api_workflow =>
        match yaml_safe_load env workflow_yaml with
        | None => Raise YAMLError
        | Some job_workflow =>
          let found_change :=
            if negb (compare_workflows api_workflow job_workflow
                       default_ignore_keys default_float_tol)
            then true else found_change in
          Ok (negb found_change)
        end
      end
    end.

(** ** [main]: the experiments *)

(** The loop over [experiments["experiments"]]; the accumulator is
    [experiment_names_to_id]. *)
Fixpoint reconcile_experiments (experiments : list ExperimentSpec)
  (experiment_names_to_id : list (string * option ident))
  : M (list (string * option ident)) :=
  match experiments with
  | [] => ret experiment_names_to_id
  | experiment_spec :: rest =>
    let name := experiment_name experiment_spec in
    let description := text_or_empty (experiment_description experiment_spec) in
    if dry_run args
    then reconcile_experiments rest (assign experiment_names_to_id name None)
    else
      found <- api_call (GetExperiment name) (Platform.get_experiment name) ;;
      experiment_api <-
        match found with
        | Some experiment_api => ret experiment_api
        | None =>
          api_call (CreateExperiment name description)
                   (Platform.create_experiment name description)
        end ;;
      api_call (UnarchiveExperiment (ApiExperiment.id experiment_api))
               (Platform.unarchive_experiment (ApiExperiment.id experiment_api)) ;;
      reconcile_experiments rest
        (assign experiment_names_to_id name (Some (ApiExperiment.id experiment_api)))
  end.

(** ** [main]: the validation of the recurring runs *)

Definition or_default (value : option string) (default : string) : string :=
  match value with
  | Some text => text
  | None => default
  end.

(** The loop over [pipeline_parameters]; the accumulator is
    [pipeline_parameters_map]. *)
Fixpoint unpack_pipeline_parameters (source : PipelineSource)
  (pipeline_parameters : list PipelineParameter)
  (pipeline_parameters_map : list (string * string)) : M (list (string * string)) :=
  match pipeline_parameters with
  | [] => ret pipeline_parameters_map
  | pipeline_parameter :: rest =>
    let name := param_name pipeline_parameter in
    if bound pipeline_parameters_map name then raise (ValueError DuplicateParameter)
    else
      match param_value pipeline_parameter, param_value_from pipeline_parameter with
      | Some value, _ =>
        unpack_pipeline_parameters source rest (assign pipeline_parameters_map name value)
      | None, Some value_from =>
        local_param_value_file_path <-
          download_github_file
            (or_default (github_owner value_from) (pipeline_source_github_owner source))
            (or_default (github_repo value_from) (pipeline_source_github_repo source))
            (or_default (git_reference value_from) (pipeline_source_git_reference source))
            (file_path value_from) ;;
        match local_param_value_file_path with
        | None => raise (ValueError ParameterFileUnavailable)
        | Some path =>
          unpack_pipeline_parameters source rest
            (assign pipeline_parameters_map name (read_file env path))
        end
      | None, None => raise (ValueError ParameterWithoutValue)
      end
  end.

(** The check of the resolved parameter names against the parameters that
    the workflow declares. *)
Definition validate_pipeline_parameters (pipeline_parameters_map : list (string * string))
  (workflow_yaml_parameters : list (pyval * pyval)) : outcome unit :=
  let given := map (fun kv => PStr (fst kv)) pipeline_parameters_map in
  let declared := map fst workflow_yaml_parameters in
  let among (xs : list pyval) (x : pyval) := existsb (key_eqb x) xs in
  if forallb (among declared) given && forallb (among given) declared then Ok tt
  else
    let missing_parameters := filter (fun x => negb (among given x)) declared in
    let missing_parameters_filtered :=
      filter (fun x => match getitem workflow_yaml_parameters x with
                       | Some optional => negb (truthy optional)
                       | None => true
                       end) missing_parameters in
    match missing_parameters_filtered with
    | _ :: _ => Raise (ValueError MissingParameters)
    | [] =>
      match filter (fun x => negb (among declared x)) given with
      | _ :: _ => Raise (ValueError UnexpectedParameters)
      | [] => Ok tt
      end
    end.

(** The body of the validation loop for one entry. *)
Definition validate_recurring_run (experiment_names_to_id : list (string * option ident))
  (found_job_names : list string) (spec : RecurringRunSpec) : M ValidatedRun :=
  let source := pipeline_source spec in
  let name := job_name (job spec) in
  if str_in name found_job_names then raise (ValueError DuplicateJobName)
  else if negb (bound experiment_names_to_id (job_experiment (job spec)))
  then raise (ValueError UnknownExperiment)
  else
    downloaded <-
      download_github_file (pipeline_source_github_owner source)
        (pipeline_source_github_repo source) (pipeline_source_git_reference source)
        (pipeline_source_file_path source) ;;
    match downloaded with
    | None => raise (ValueError PipelineSourceUnavailable)
    | Some package_path =>
      if endswith package_path ".yaml" then
        let text := read_file env package_path in
        validated <-
          lift (Validator.validate_workflow_yaml (yaml_safe_load env) (json_loads env) text) ;;
        match validated with
        | Validator.ReturnedBool _ => raise TypeError
        | Validator.ReturnedPair workflow_yaml_is_valid workflow_yaml_parameters =>
          if negb workflow_yaml_is_valid then raise (ValueError NotAWorkflow)
          else
            parameters_map <-
              unpack_pipeline_parameters source (pipeline_parameters spec) [] ;;
            lift (validate_pipeline_parameters parameters_map workflow_yaml_parameters) ;;
            ret {| recurring_run_spec := spec;
                   pipeline_package_path := package_path;
                   workflow_yaml := text;
                   pipeline_parameters_map := parameters_map |}
        end
      else raise (ValueError NotAYamlFile)
    end.

(** The validation loop; the accumulator is [found_job_names]. *)
Fixpoint validate_recurring_runs (experiment_names_to_id : list (string * option ident))
  (recurring_runs : list RecurringRunSpec) (found_job_names : list string)
  : M (list ValidatedRun) :=
  match recurring_runs with
  | [] => ret []
  | spec :: rest =>
    validated <- validate_recurring_run experiment_names_to_id found_job_names spec ;;
    others <-
      validate_recurring_runs experiment_names_to_id rest
        (job_name (job spec) :: found_job_names) ;;
    ret (validated :: others)
  end.

(** ** [main]: the reconciliation of the recurring runs *)

(** [job.get("service_account", None) or args.kfp_default_runner_sa]. *)
Definition service_account_of (j : Job) : string :=
  match job_service_account j with
  | Some account => if String.eqb account "" then kfp_default_runner_sa args else account
  | None => kfp_default_runner_sa args
  end.

(** [existing_scheduled_runs[0]], if there is one. *)
Definition latest_of (existing_scheduled_runs : list ApiJob.t) : option ApiJob.t :=
  match existing_scheduled_runs with
  | [] => None
  | latest_scheduled_run :: _ => Some latest_scheduled_run
  end.

(** The value of [latest_is_up_to_date]. *)
Definition check_latest (experiment_names_to_id : list (string * option ident))
  (run : ValidatedRun) (latest_scheduled_run : option ApiJob.t) : outcome bool :=
  match latest_scheduled_run with
  | None => Ok false
  | Some latest =>
    let j := job (recurring_run_spec run) in
    match lookup experiment_names_to_id (job_experiment j) with
    | None => Raise KeyError
    | Some job_experiment_id =>
      compare_api_job latest (workflow_yaml run) (job_description j) job_experiment_id
        (job_max_concurrency j) (service_account_of j) (pipeline_parameters_map run)
        (job_trigger_catchup (job_trigger j)) (job_trigger_start_date (job_trigger j))
        (job_trigger_end_date (job_trigger j)) (job_trigger_cron (job_trigger j))
        (job_trigger_interval_seconds (job_trigger j))
    end
  end.

(** The loop over [existing_scheduled_runs[1:]]. *)
Definition disable_other_runs (existing_scheduled_runs : list ApiJob.t) : M unit :=
  for_each (tl existing_scheduled_runs)
    (fun scheduled_run =>
       if ApiJob.enabled scheduled_run then disable_job (ApiJob.id scheduled_run) else ret tt).

(** The branch [if latest_is_up_to_date]. *)
Definition reconcile_enabled (enabled : bool) (latest_scheduled_run : ApiJob.t) : M unit :=
  if enabled && negb (ApiJob.enabled latest_scheduled_run)
  then enable_job (ApiJob.id latest_scheduled_run)
  else if negb enabled && ApiJob.enabled latest_scheduled_run
  then disable_job (ApiJob.id latest_scheduled_run)
  else ret tt.

(** The arguments of the call of [create_recurring_run]. *)
Definition creation_arguments (experiment_id : option ident) (run : ValidatedRun)
  (new_job_name : string) : create_arguments :=
  let j := job (recurring_run_spec run) in
  {| arg_enabled := false;
     arg_experiment_id := experiment_id;
     arg_job_name := new_job_name;
     arg_description := job_description j;
     arg_start_time := job_trigger_start_date (job_trigger j);
     arg_end_time := job_trigger_end_date (job_trigger j);
     arg_interval_second := job_trigger_interval_seconds (job_trigger j);
     arg_cron_expression := job_trigger_cron (job_trigger j);
     arg_max_concurrency := job_max_concurrency j;
     arg_no_catchup := negb (job_trigger_catchup (job_trigger j));
     arg_params := pipeline_parameters_map run;
     arg_pipeline_package_path := pipeline_package_path run;
     arg_service_account := service_account_of j |}.

(** The branch [if not latest_is_up_to_date]; the result is
    [existing_scheduled_runs] with the new run in front. *)
Definition create_new_run (experiment_names_to_id : list (string * option ident))
  (run : ValidatedRun) (latest_scheduled_run : option ApiJob.t)
  (existing_scheduled_runs : list ApiJob.t) : M (list ApiJob.t) :=
  fun s =>
    (let j := job (recurring_run_spec run) in
     let new_job_name := get_new_job_name (now s) (job_name j) in
     match lookup experiment_names_to_id (job_experiment j) with
     | None => raise KeyError
     | Some experiment_id =>
       new_scheduled_run <-
         create_recurring_run (creation_arguments experiment_id run new_job_name) ;;
       match latest_scheduled_run with
       | Some latest => disable_job (ApiJob.id latest)
       | None => ret tt
       end ;;
       (if job_enabled j then enable_job (ApiJob.id new_scheduled_run) else ret tt) ;;
       ret (new_scheduled_run :: existing_scheduled_runs)
     end) s.

(** The block under [if keep_history != -1]. *)
Definition delete_old_runs (keep : Z) (existing_scheduled_runs : list ApiJob.t) : M unit :=
  if Z.eqb keep (-1) then ret tt
  else
    for_each (slice_from existing_scheduled_runs keep)
      (fun scheduled_run => delete_job (ApiJob.id scheduled_run)).

(** [recurring_run_spec.get("keep_history", 5)]. *)
Definition keep_history_of (spec : RecurringRunSpec) : Z :=
  match keep_history spec with
  | Some keep => keep
  | None => 5%Z
  end.

(** The body of the reconciliation loop for one entry, after the check
    of [--dry-run]. *)
Definition reconcile_recurring_run (experiment_names_to_id : list (string * option ident))
  (run : ValidatedRun) : M unit :=
  let j := job (recurring_run_spec run) in
  existing_scheduled_runs <- get_existing_recurring_runs (job_name j) ;;
  let latest_scheduled_run := latest_of existing_scheduled_runs in
  latest_is_up_to_date <- lift (check_latest experiment_names_to_id run latest_scheduled_run) ;;
  disable_other_runs existing_scheduled_runs ;;
  match latest_is_up_to_date, latest_scheduled_run with
  | true, Some latest => reconcile_enabled (job_enabled j) latest
  | _, _ => ret tt
  end ;;
  existing_scheduled_runs <-
    (if negb latest_is_up_to_date
     then create_new_run experiment_names_to_id run latest_scheduled_run existing_scheduled_runs
     else ret existing_scheduled_runs) ;;
  delete_old_runs (keep_history_of (recurring_run_spec run)) existing_scheduled_runs.

(** The reconciliation loop. *)
Definition reconcile_recurring_runs (experiment_names_to_id : list (string * option ident))
  (recurring_runs : list ValidatedRun) : M unit :=
  for_each recurring_runs
    (fun run =>
       if dry_run args then ret tt
       else reconcile_recurring_run experiment_names_to_id run).

(** [main], from the reconciliation of the experiments on: the command
    line is parsed and both files have passed their schemas. *)
Definition main (experiments : list ExperimentSpec) (recurring_runs : list RecurringRunSpec)
  : M unit :=
  experiment_names_to_id <- reconcile_experiments experiments [] ;;
  validated <- validate_recurring_runs experiment_names_to_id recurring_runs [] ;;
  reconcile_recurring_runs experiment_names_to_id validated.

End Run.

(** ** Vocabulary of the statements *)

(** The calls that a run has added to the record of [s]. *)
Definition calls_since (s s' : state) : list call :=
  skipn (List.length (calls s)) (calls s').

(** The versions of a job that the platform stores, and those of them
    that are enabled. *)
Definition versions_of (job_name : string) (p : Platform.t) : list ApiJob.t :=
  filter (fun j => matches_job job_name (ApiJob.name j)) (jobs p).

Definition enabled_versions (job_name : string) (p : Platform.t) : list ApiJob.t :=
  filter ApiJob.enabled (versions_of job_name p).



(** A record without its read-only calls. *)
Definition mutations (record : list call) : list call := filter mutating record.

(** A computation adds calls that all satisfy [P] to the record. *)
Definition logs {A} (P : call -> bool) (m : M A) : Prop :=
  forall s, exists added,
    calls (snd (m s)) = calls s ++ added /\ Forall (fun c => P c = true) added.

(** A computation leaves the platform and the clock alone. *)
Definition reads_only {A} (m : M A) : Prop :=
  forall s, remote (snd (m s)) = remote s /\ now (snd (m s)) = now s.

(** The dictionary of experiment ids that a dry run builds: every declared
    experiment is bound to [None]. *)
Definition skipped (experiments : list ExperimentSpec) (ids : list (string * option ident)) :=
  fold_left (fun d e => assign d (experiment_name e) None) experiments ids.

(** The identifiers of a list of jobs, in order. *)
Definition ids (js : list ApiJob.t) : list ident := map ApiJob.id js.

(** The platform answers every call. *)
Definition reliable (s : state) : Prop := failing_after (remote s) = None.


(** The jobs after [enable_job] or [disable_job] has answered. *)
Definition switch (id : ident) (b : bool) (js : list ApiJob.t) : list ApiJob.t :=
  map (fun j => if Nat.eqb (ApiJob.id j) id then ApiJob.with_enabled b j else j) js.

(** The enabled versions of a job among [js]. *)
Definition enabled_among (name : string) (js : list ApiJob.t) : list ApiJob.t :=
  filter ApiJob.enabled (filter (fun j => matches_job name (ApiJob.name j)) js).


End Reconciler.

(* ================================================================== *)
(** * A scenario                                                       *)
(* ================================================================== *)

Module Scenario.

Import Document Python Naming Platform Reconciler.

Definition workflow : pyval :=
  PDict [ ("apiVersion", PStr "argoproj.io/v1alpha1");
          ("kind", PStr "Workflow");
          ("metadata",
           PDict [ ("annotations",
                    PDict [ ("pipelines.kubeflow.org/pipeline_spec", PStr "SPEC") ]) ]);
          ("spec", PDict [ ("entrypoint", PStr "main") ]) ].

Definition env : Environment :=
  {| github := fun _ _ _ path =>
       if String.eqb path "missing.yaml" then None else Some (".cache/" ++ path)%string;
     read_file := fun path => if String.eqb path ".cache/broken.yaml" then "{" else "WORKFLOW";
     yaml_safe_load := fun text => if String.eqb text "WORKFLOW" then Some workflow else None;
     json_loads := fun text =>
       if String.eqb text "SPEC"
       then Some (PDict [ ("inputs", PList [ PDict [ ("name", PStr "x") ] ]) ])
       else if String.eqb text "MANIFEST" then Some workflow else None;
     manifest_of_package := fun _ => Some "MANIFEST" |}.

Definition wet : Arguments := {| dry_run := false; kfp_default_runner_sa := "default-editor" |}.
Definition dry : Arguments := {| dry_run := true; kfp_default_runner_sa := "default-editor" |}.

Definition experiments : list ExperimentSpec :=
  [ {| experiment_name := "e"; experiment_description := None |} ].

Definition spec (path : string) (keep : option Z) : RecurringRunSpec :=
  {| pipeline_source :=
       {| pipeline_source_github_owner := "o"; pipeline_source_github_repo := "r";
          pipeline_source_git_reference := "main"; pipeline_source_file_path := path |};
     pipeline_parameters :=
       [ {| param_name := "x"; param_value := Some "1"; param_value_from := None |} ];
     job :=
       {| job_enabled := true; job_name := "a"; job_description := None;
          job_experiment := "e"; job_max_concurrency := 1; job_service_account := None;
          job_trigger :=
            {| job_trigger_catchup := false; job_trigger_start_date := None;
               job_trigger_end_date := None; job_trigger_cron := Some "0 0 * * * *";
               job_trigger_interval_seconds := None |} |};
     keep_history := keep |}.

Definition validated (keep : option Z) : ValidatedRun :=
  {| recurring_run_spec := spec "a.yaml" keep;
     pipeline_package_path := ".cache/a.yaml";
     workflow_yaml := "WORKFLOW";
     pipeline_parameters_map := [ ("x", "1") ] |}.

Definition names : list (string * option ident) := [ ("e", Some 7) ].

(** A version of the job ["a"] that is stale: it has no parameters. *)
Definition version (id : ident) (name : string) (enabled : bool) : ApiJob.t :=
  {| ApiJob.id := id; ApiJob.name := name; ApiJob.enabled := enabled;
     ApiJob.description := None;
     ApiJob.resource_references :=
       [ {| ApiJob.key_type := ApiJob.EXPERIMENT; ApiJob.key_id := 7 |} ];
     ApiJob.max_concurrency := 1; ApiJob.service_account := "default-editor";
     ApiJob.pipeline_spec :=
       {| ApiJob.parameters := None; ApiJob.workflow_manifest := Some "MANIFEST" |};
     ApiJob.no_catchup := Some true;
     ApiJob.trigger :=
       {| ApiJob.cron_schedule :=
            Some {| ApiJob.cron_start_time := None; ApiJob.cron_end_time := None;
                    ApiJob.cron := Some "0 0 * * * *" |};
          ApiJob.periodic_schedule := None |} |}.

Definition clock : datetime :=
  {| year := 2024; month := 3; day := 4; hour := 5; minute := 6; second := 7 |}.

Definition platform (jobs : list ApiJob.t) (next : ident) (failing : option nat) : Platform.t :=
  {| Platform.experiments := []; Platform.jobs := jobs; Platform.next_id := next;
     Platform.failing_after := failing |}.

Definition start (jobs : list ApiJob.t) (next : ident) (failing : option nat) : state :=
  {| remote := platform jobs next failing; calls := []; now := clock |}.

Definition first_version : ApiJob.t := version 0 "GIT::a__2024-01-01T00-00-00Z" true.
Definition second_version : ApiJob.t := version 1 "GIT::a__2024-01-02T00-00-00Z" false.


(** A job whose name is a versioned name followed by a newline. *)
Definition stray : ApiJob.t :=
  version 0 ("GIT::a__2024-01-01T00-00-00Z" ++ String newline EmptyString)%string true.

(** ** Documents *)

(** A document whose only float that is not finite lies under the key
    ["stamp"]. *)
Definition sample : pyval :=
  PDict [ ("steps", PList [ PFloat 0.5; PInt 3; PNone; PStr "x" ]);
          ("stamp", PFloat nan) ].

(** Two documents that differ under the key ["stamp"] only: in the value
    bound to it, and in whether it is bound at all. *)
Definition with_stamp : pyval :=
  PDict [ ("steps", PList [ PDict [ ("n", PFloat 0.5); ("stamp", PStr "monday") ] ]);
          ("stamp", PFloat nan) ].

Definition without_stamp : pyval :=
  PDict [ ("steps", PList [ PDict [ ("stamp", PInt 7); ("n", PFloat 0.5) ] ]) ].

End Scenario.

(* ================================================================== *)
(** * Facts about documents                                          *)
(* ================================================================== *)

Module DocumentFacts.

Import Document.

(** Induction over a document with the hypothesis available for every item
    of a list and every value of a dict. *)
Lemma pyval_ind (P : pyval -> Prop) :
  P PNone ->
  (forall b, P (PBool b)) ->
  (forall z, P (PInt z)) ->
  (forall f, P (PFloat f)) ->
  (forall s, P (PStr s)) ->
  (forall items, Forall P items -> P (PList items)) ->
  (forall bindings, Forall (fun kv => P (snd kv)) bindings -> P (PDict bindings)) ->
  forall x, P x.
Proof.
  intros HN HB HI HF HS HL HD.
  fix IH 1.
  intros [ | b | z | f | s | items | bindings ].
  - exact HN.
  - apply HB.
  - apply HI.
  - apply HF.
  - apply HS.
  - apply HL. induction items as [ | x xs IHxs ]; constructor; [ apply IH | exact IHxs ].
  - apply HD. induction bindings as [ | [k v] bs IHbs ]; constructor; [ apply IH | exact IHbs ].
Qed.

(** ** Binary64 facts behind the float rule *)

Lemma SFabs_binary_round s m e :
  SFabs (binary_round prec emax s m e) = SFabs (binary_round prec emax (negb s) m e).
Proof.
  unfold binary_round, binary_round_aux.
  destruct (shl_align _ _ _) as [mz ez].
  destruct (shr_fexp _ _ _ _ _) as [mrs' e'].
  destruct (shr_fexp _ _ _ _ _) as [mrs'' e''].
  destruct (shr_m mrs''); try reflexivity.
  destruct (Z.leb _ _); reflexivity.
Qed.

Lemma SFabs_binary_normalize_opp m e :
  SFabs (binary_normalize prec emax (- m) e false) = SFabs (binary_normalize prec emax m e false).
Proof.
  destruct m as [ | p | p ]; simpl; try reflexivity.
  - apply (SFabs_binary_round true).
  - apply (SFabs_binary_round false).
Qed.

Lemma SFabs_SFsub_comm x y : SFabs (SF64sub x y) = SFabs (SF64sub y x).
Proof.
  unfold SF64sub.
  destruct x as [ sx | sx | | sx mx ex ], y as [ sy | sy | | sy my ey ];
    try reflexivity; try (destruct sx, sy; reflexivity); try (destruct sy; reflexivity).
  unfold SFsub.
  rewrite (Z.min_comm ey ex).
  rewrite <- SFabs_binary_normalize_opp.
  f_equal. f_equal. lia.
Qed.

Lemma float_rule_comm (a b tol : float) :
  (abs (a - b) <? tol)%float = (abs (b - a) <? tol)%float.
Proof.
  rewrite !ltb_spec, !abs_spec, !sub_spec. now rewrite SFabs_SFsub_comm.
Qed.

Lemma Prim2SF_finite_cases (x : float) :
  is_finite x = true ->
  (exists s, Prim2SF x = S754_zero s) \/ (exists s m e, Prim2SF x = S754_finite s m e).
Proof.
  unfold is_finite, is_nan, is_infinity.
  rewrite !eqb_spec, abs_spec.
  destruct (Prim2SF x) as [ s | s | | s m e ]; eauto; intros H; exfalso.
  - destruct s; vm_compute in H; discriminate.
  - vm_compute in H; discriminate.
Qed.

Lemma SFsub_diag (x : float) :
  is_finite x = true -> SFabs (SF64sub (Prim2SF x) (Prim2SF x)) = S754_zero false.
Proof.
  intros H. destruct (Prim2SF_finite_cases x H) as [ [s E] | (s & m & e & E) ]; rewrite E.
  - destruct s; reflexivity.
  - unfold SF64sub, SFsub. rewrite Z.sub_diag. reflexivity.
Qed.

Lemma float_rule_refl (x tol : float) :
  is_finite x = true -> (0 <? tol)%float = true -> (abs (x - x) <? tol)%float = true.
Proof.
  intros Hx Ht. rewrite ltb_spec in *. rewrite abs_spec, sub_spec, SFsub_diag by assumption.
  exact Ht.
Qed.


(** ** Sets of keys *)

Lemma str_in_In x xs : str_in x xs = true <-> In x xs.
Proof.
  unfold str_in. rewrite existsb_exists. split.
  - intros (y & Hy & E). apply String.eqb_eq in E. now subst.
  - intros H. exists x. split; [ exact H | apply String.eqb_refl ].
Qed.

Lemma set_eqb_incl xs ys :
  set_eqb xs ys = true <-> (forall x, In x xs <-> In x ys).
Proof.
  unfold set_eqb. rewrite andb_true_iff, !forallb_forall. split.
  - intros [H1 H2] x. split; intros H.
    + apply str_in_In, H1, H.
    + apply str_in_In, H2, H.
  - intros H. split; intros x Hx; apply str_in_In, H, Hx.
Qed.

Lemma set_eqb_sym xs ys : set_eqb xs ys = set_eqb ys xs.
Proof. unfold set_eqb. apply andb_comm. Qed.

Lemma set_eqb_refl xs : set_eqb xs xs = true.
Proof. apply set_eqb_incl. tauto. Qed.

Lemma forallb_ext_in {A} (f g : A -> bool) xs :
  (forall x, In x xs -> f x = g x) -> forallb f xs = forallb g xs.
Proof.
  induction xs as [ | x xs IH ]; simpl; intros H; [ reflexivity | ].
  rewrite (H x) by now left. rewrite IH; [ reflexivity | ].
  intros y Hy. apply H. now right.
Qed.

Lemma Forall2_same_length {A B} (R : A -> B -> Prop) xs ys :
  Forall2 R xs ys -> List.length xs = List.length ys.
Proof. induction 1; simpl; congruence. Qed.

Lemma forallb_same_elements (f : string -> bool) xs ys :
  (forall x, In x xs <-> In x ys) -> forallb f xs = forallb f ys.
Proof.
  intros H. apply eq_true_iff_eq. rewrite !forallb_forall.
  split; intros Hf x Hx; apply Hf, H, Hx.
Qed.

Lemma kept_keys_In K d key :
  In key (kept_keys K d) <-> has_key d key = true /\ str_in key K = false.
Proof.
  unfold kept_keys, has_key. rewrite filter_In, negb_true_iff, str_in_In. tauto.
Qed.

(** ** The equations of the comparator *)

Section ComparatorFacts.

Variable K : list string.
Variable tol : float.

Local Abbreviation cmp := (compare_recursive K tol).

Lemma compare_None_l b ck :
  cmp PNone b ck = match b with PNone => true | _ => false end.
Proof. destruct b; reflexivity. Qed.

Lemma compare_None_r a ck :
  cmp a PNone ck = match a with PNone => true | _ => false end.
Proof. destruct a; reflexivity. Qed.

Lemma compare_dict d1 d2 ck :
  cmp (PDict d1) (PDict d2) ck =
  if key_in ck K then true
  else if negb (set_eqb (kept_keys K d1) (kept_keys K d2)) then false
  else forallb (fun key => cmp (dict_get d1 key) (dict_get d2 key) (Some key))
               (kept_keys K d1).
Proof.
  simpl. destruct (key_in ck K); [ reflexivity | ].
  destruct (negb _); [ reflexivity | ].
  apply forallb_ext_in. intros key _.
  induction d1 as [ | [k v] rest IH ]; simpl.
  - destruct (dict_get d2 key); reflexivity.
  - destruct (String.eqb k key); [ reflexivity | apply IH ].
Qed.

Lemma compare_list l1 l2 ck :
  cmp (PList l1) (PList l2) ck =
  if key_in ck K then true
  else if negb (Nat.eqb (List.length l1) (List.length l2)) then false
  else forallb (fun xy => cmp (fst xy) (snd xy) None) (combine l1 l2).
Proof.
  simpl. destruct (key_in ck K); [ reflexivity | ].
  destruct (negb _); [ reflexivity | ].
  revert l2. induction l1 as [ | x xs IH ]; intros [ | y ys ]; simpl; try reflexivity.
  now rewrite IH.
Qed.

Lemma compare_type_mismatch a b ck :
  type_of a <> type_of b -> key_in ck K = false -> cmp a b ck = false.
Proof.
  intros Ht Hk.
  destruct a, b; simpl; rewrite ?Hk; try reflexivity; exfalso; apply Ht; reflexivity.
Qed.

Lemma dict_get_Forall (P : pyval -> Prop) d key :
  Forall (fun kv => P (snd kv)) d -> P PNone -> P (dict_get d key).
Proof.
  intros H HN. induction H as [ | [k v] rest Hv _ IH ]; simpl; [ exact HN | ].
  destruct (String.eqb k key); [ exact Hv | exact IH ].
Qed.

Lemma pytype_eqb_sym t u : pytype_eqb t u = pytype_eqb u t.
Proof. destruct t, u; reflexivity. Qed.

Lemma compare_recursive_sym a : forall b ck, cmp a b ck = cmp b a ck.
Proof.
  induction a as [ | x | x | x | x | l1 IH | d1 IH ] using pyval_ind; intros b ck.
  - now rewrite compare_None_l, compare_None_r.
  - destruct b; simpl; try reflexivity. destruct (key_in ck K); [ reflexivity | ].
    simpl. destruct x, b; reflexivity.
  - destruct b; simpl; try reflexivity. destruct (key_in ck K); [ reflexivity | ].
    simpl. apply Z.eqb_sym.
  - destruct b; simpl; try reflexivity. destruct (key_in ck K); [ reflexivity | ].
    simpl. unfold float_rule. simpl. apply float_rule_comm.
  - destruct b; simpl; try reflexivity. destruct (key_in ck K); [ reflexivity | ].
    simpl. apply String.eqb_sym.
  - destruct b as [ | | | | | l2 | ]; try (simpl; destruct (key_in ck K); reflexivity).
    rewrite !compare_list. destruct (key_in ck K); [ reflexivity | ].
    rewrite (Nat.eqb_sym (List.length l2)).
    destruct (negb _); [ reflexivity | ].
    revert l2. induction IH as [ | x xs Hx _ IHxs ]; intros [ | y ys ]; simpl; try reflexivity.
    now rewrite Hx, IHxs.
  - destruct b as [ | | | | | | d2 ]; try (simpl; destruct (key_in ck K); reflexivity).
    rewrite !compare_dict. destruct (key_in ck K); [ reflexivity | ].
    rewrite (set_eqb_sym (kept_keys K d2)).
    destruct (set_eqb (kept_keys K d1) (kept_keys K d2)) eqn:E; [ simpl | reflexivity ].
    rewrite (forallb_same_elements _ (kept_keys K d2) (kept_keys K d1)).
    + apply forallb_ext_in. intros key _.
      apply (dict_get_Forall (fun v => forall b ck, cmp v b ck = cmp b v ck)); [ exact IH | ].
      intros b' ck'. now rewrite compare_None_l, compare_None_r.
    + intros x. symmetry. revert x. now apply set_eqb_incl.
Qed.

Lemma finite_floats_dict_get d key :
  finite_floats K (PDict d) = true ->
  str_in key K = false ->
  finite_floats K (dict_get d key) = true.
Proof.
  intros H Hk. induction d as [ | [k v] rest IH ]; simpl in *; [ reflexivity | ].
  apply andb_true_iff in H. destruct H as [Hv Hrest].
  destruct (String.eqb k key) eqn:E.
  - apply String.eqb_eq in E. subst k. rewrite Hk in Hv. exact Hv.
  - apply IH, Hrest.
Qed.

Lemma compare_recursive_refl a :
  (0 <? tol)%float = true ->
  finite_floats K a = true ->
  forall ck, cmp a a ck = true.
Proof.
  intros Htol.
  induction a as [ | x | x | x | x | l IH | d IH ] using pyval_ind; intros Hfin ck.
  - reflexivity.
  - simpl. destruct (key_in ck K); [ reflexivity | ]. destruct x; reflexivity.
  - simpl. destruct (key_in ck K); [ reflexivity | ]. apply Z.eqb_refl.
  - simpl. destruct (key_in ck K); [ reflexivity | ]. unfold float_rule. simpl.
    now apply float_rule_refl.
  - simpl. destruct (key_in ck K); [ reflexivity | ]. apply String.eqb_refl.
  - rewrite compare_list. destruct (key_in ck K); [ reflexivity | ].
    rewrite Nat.eqb_refl. simpl. simpl in Hfin.
    induction IH as [ | x xs Hx _ IHxs ]; simpl in *; [ reflexivity | ].
    apply andb_true_iff in Hfin. destruct Hfin as [Hfx Hfxs].
    rewrite Hx by exact Hfx. now apply IHxs.
  - rewrite compare_dict. destruct (key_in ck K); [ reflexivity | ].
    rewrite set_eqb_refl. simpl. apply forallb_forall. intros key Hkey.
    apply kept_keys_In in Hkey. destruct Hkey as [_ Hkey].
    apply (dict_get_Forall (fun v => finite_floats K v = true -> forall ck, cmp v v ck = true) d key IH).
    + reflexivity.
    + now apply finite_floats_dict_get.
Qed.

(** Differences below an ignored key are invisible: the verdict on [a] and
    [b] is the verdict on [a] and itself. *)
Lemma compare_recursive_ignored k a :
  str_in k K = true ->
  forall b, differ_only_at k a b -> forall ck, cmp a b ck = cmp a a ck.
Proof.
  intros Hk.
  induction a as [ | x | x | x | x | l1 IH | d1 IH ] using pyval_ind;
    intros b Hd ck; inversion Hd; subst; try reflexivity.
  - (* lists *)
    rename l2 into l2'. rewrite !compare_list. destruct (key_in ck K); [ reflexivity | ].
    match goal with H : Forall2 _ _ _ |- _ => rename H into HF end.
    rewrite <- (Forall2_same_length _ _ _ HF), Nat.eqb_refl. simpl.
    clear Hd. induction HF as [ | x y xs ys Hxy _ IHF ]; simpl; [ reflexivity | ].
    inversion IH; subst. f_equal; [ auto | auto ].
  - (* dicts *)
    match goal with H : forall key, key <> k -> _ |- _ => rename H into Hkeys end.
    rewrite !compare_dict. destruct (key_in ck K); [ reflexivity | ].
    assert (Hne : forall key, str_in key K = false -> key <> k).
    { intros key Hkey ->. congruence. }
    assert (Hsame : forall x, In x (kept_keys K d1) <-> In x (kept_keys K d2)).
    { intros x. rewrite !kept_keys_In. split; intros [H1 H2]; split; try exact H2.
      - now rewrite <- (proj1 (Hkeys x (Hne x H2))).
      - now rewrite (proj1 (Hkeys x (Hne x H2))). }
    rewrite (proj2 (set_eqb_incl _ _) Hsame), set_eqb_refl. simpl.
    apply forallb_ext_in. intros key Hkey.
    apply kept_keys_In in Hkey. destruct Hkey as [_ Hkey].
    apply (dict_get_Forall
             (fun v => forall b, differ_only_at k v b -> forall ck, cmp v b ck = cmp v v ck)
             d1 key IH).
    + intros b Hb ck'. inversion Hb; subst. reflexivity.
    + apply Hkeys, Hne, Hkey.
Qed.

End ComparatorFacts.

(** ** The comparator as a relation *)

Lemma default_float_tol_positive : (0 <? default_float_tol)%float = true.
Proof. reflexivity. Qed.

(** C6.  [compare_workflows] is symmetric for all documents, ignored keys
    and tolerances.  It is reflexive, with the default tolerance, on
    every document whose floats outside ignored keys are finite. *)
Theorem compare_workflows_symmetric_reflexive a b K tol :
  compare_workflows a b K tol = compare_workflows b a K tol /\
  (finite_floats K a = true -> compare_workflows a a K default_float_tol = true).
Proof.
  split.
  - apply compare_recursive_sym.
  - intros H. apply compare_recursive_refl; [ apply default_float_tol_positive | exact H ].
Qed.

(** C7.  Two documents that differ only in subtrees rooted at an ignored
    key, at any depth, the key being bound in both or in one of them only,
    compare equal when the floats of the first outside ignored keys are
    finite. *)
Theorem ignored_subtrees_compare_equal K k a b :
  In k K ->
  differ_only_at k a b ->
  finite_floats K a = true ->
  compare_workflows a b K default_float_tol = true.
Proof.
  intros Hk Hd Hf. unfold compare_workflows.
  rewrite (compare_recursive_ignored K default_float_tol k a (proj2 (str_in_In k K) Hk) b Hd).
  apply compare_recursive_refl; [ apply default_float_tol_positive | exact Hf ].
Qed.

(** C10.  Two values of different runtime types compare unequal, at the
    root and under every key that is not ignored, whatever the values are
    and also where the test of equality or the rule for floats would find
    them equal, as for [1] and [1.0] or for [True] and [1]: the test on
    the types comes before both. *)
Theorem different_types_compare_unequal a b K tol :
  type_of a <> type_of b ->
  compare_workflows a b K tol = false /\
  (forall current_key,
     key_in current_key K = false -> compare_recursive K tol a b current_key = false).
Proof.
  intros H. split.
  - now apply compare_type_mismatch.
  - intros current_key Hkey. now apply compare_type_mismatch.
Qed.

End DocumentFacts.

(* ================================================================== *)
(** * Facts about the validator                                      *)
(* ================================================================== *)

Module ValidatorFacts.

Import Document Python Validator.

(** C8.  On a text that [yaml.safe_load] rejects, [validate_workflow_yaml]
    returns the lone [False], not a pair of a flag and the declared
    parameters. *)
Theorem unparsable_manifest_returns_lone_false yaml_safe_load json_loads workflow_yaml :
  yaml_safe_load workflow_yaml = None ->
  validate_workflow_yaml yaml_safe_load json_loads workflow_yaml = Ok (ReturnedBool false).
Proof. intros H. unfold validate_workflow_yaml. now rewrite H. Qed.

End ValidatorFacts.

(* ================================================================== *)
(** * Facts about the monad and the phases of [main]                 *)
(* ================================================================== *)

Module MonadFacts.

Import Document Python Naming Platform Reconciler.

Lemma calls_since_app s s' added :
  calls s' = calls s ++ added -> calls_since s s' = added.
Proof.
  unfold calls_since. intros ->.
  rewrite skipn_app, skipn_all, Nat.sub_diag. reflexivity.
Qed.

Lemma logs_ret {A} P (a : A) : logs P (ret a).
Proof. intros s. exists []. simpl. now rewrite app_nil_r. Qed.

Lemma logs_raise {A} P e : logs P (@raise A e).
Proof. intros s. exists []. simpl. now rewrite app_nil_r. Qed.

Lemma logs_lift {A} P (r : outcome A) : logs P (lift r).
Proof. intros s. exists []. simpl. now rewrite app_nil_r. Qed.

Lemma logs_bind {A B} P (m : M A) (k : A -> M B) :
  logs P m -> (forall a, logs P (k a)) -> logs P (bind m k).
Proof.
  intros Hm Hk s. unfold bind.
  destruct (Hm s) as (l1 & E1 & F1).
  destruct (m s) as [[a | e] s1]; simpl in *.
  - destruct (Hk a s1) as (l2 & E2 & F2).
    exists (l1 ++ l2). rewrite E2, E1, app_assoc. split; [ reflexivity | ].
    apply Forall_app. now split.
  - exists l1. now split.
Qed.

Lemma logs_api_call {A} (P : call -> bool) c (serve : Platform.t -> outcome A * Platform.t) :
  P c = true -> logs P (api_call c serve).
Proof.
  intros Hc s. exists [c]. split; [ | now constructor ].
  unfold api_call. destruct (failing_after (remote s)) as [ [ | n ] | ]; simpl;
    try reflexivity; destruct (serve _); reflexivity.
Qed.

Lemma logs_for_each {A} P (xs : list A) body :
  (forall x, logs P (body x)) -> logs P (for_each xs body).
Proof.
  intros H. induction xs as [ | x xs IH ]; simpl.
  - apply logs_ret.
  - apply logs_bind; [ apply H | intros _; apply IH ].
Qed.

Lemma logs_state {A} P (f : state -> M A) :
  (forall s0, logs P (f s0)) -> logs P (fun s => f s s).
Proof. intros H s. apply (H s s). Qed.

Lemma reads_only_ret {A} (a : A) : reads_only (ret a).
Proof. intros s. now split. Qed.

Lemma reads_only_raise {A} e : reads_only (@raise A e).
Proof. intros s. now split. Qed.

Lemma reads_only_lift {A} (r : outcome A) : reads_only (lift r).
Proof. intros s. now split. Qed.

Lemma reads_only_bind {A B} (m : M A) (k : A -> M B) :
  reads_only m -> (forall a, reads_only (k a)) -> reads_only (bind m k).
Proof.
  intros Hm Hk s. unfold bind. destruct (Hm s) as [R1 N1].
  destruct (m s) as [[a | e] s1]; simpl in *.
  - destruct (Hk a s1) as [R2 N2]. split; congruence.
  - now split.
Qed.


(** ** The three phases of [main] *)

Section Phases.

Variable env : Environment.
Variable args : Arguments.

Lemma logs_download P o r g p :
  P (GithubDownload o r g p) = true -> logs P (download_github_file env o r g p).
Proof.
  intros H s. exists [GithubDownload o r g p]. split; [ reflexivity | now constructor ].
Qed.

Lemma reads_only_download o r g p : reads_only (download_github_file env o r g p).
Proof. intros s. now split. Qed.

Lemma logs_reconcile_experiments experiments :
  forall ids, logs on_experiments (reconcile_experiments args experiments ids).
Proof.
  induction experiments as [ | spec rest IH ]; intros ids; simpl.
  - apply logs_ret.
  - destruct (dry_run args); [ apply IH | ].
    apply logs_bind; [ now apply logs_api_call | intros found ].
    apply logs_bind.
    + destruct found; [ apply logs_ret | now apply logs_api_call ].
    + intros e. apply logs_bind; [ now apply logs_api_call | intros _; apply IH ].
Qed.

Lemma logs_unpack_pipeline_parameters source parameters :
  forall acc, logs is_download (unpack_pipeline_parameters env source parameters acc).
Proof.
  induction parameters as [ | p rest IH ]; intros acc; simpl.
  - apply logs_ret.
  - destruct (bound acc (param_name p)); [ apply logs_raise | ].
    destruct (param_value p); [ apply IH | ].
    destruct (param_value_from p); [ | apply logs_raise ].
    apply logs_bind; [ now apply logs_download | ].
    intros [ path | ]; [ apply IH | apply logs_raise ].
Qed.

Lemma reads_only_unpack_pipeline_parameters source parameters :
  forall acc, reads_only (unpack_pipeline_parameters env source parameters acc).
Proof.
  induction parameters as [ | p rest IH ]; intros acc; simpl.
  - apply reads_only_ret.
  - destruct (bound acc (param_name p)); [ apply reads_only_raise | ].
    destruct (param_value p); [ apply IH | ].
    destruct (param_value_from p); [ | apply reads_only_raise ].
    apply reads_only_bind; [ apply reads_only_download | ].
    intros [ path | ]; [ apply IH | apply reads_only_raise ].
Qed.

Lemma logs_validate_recurring_run ids found spec :
  logs is_download (validate_recurring_run env ids found spec).
Proof.
  unfold validate_recurring_run.
  destruct (str_in _ _); [ apply logs_raise | ].
  destruct (negb _); [ apply logs_raise | ].
  apply logs_bind; [ now apply logs_download | ].
  intros [ path | ]; [ | apply logs_raise ].
  destruct (endswith _ _); [ | apply logs_raise ].
  apply logs_bind; [ apply logs_lift | ].
  intros [ b | valid parameters ]; [ apply logs_raise | ].
  destruct (negb valid); [ apply logs_raise | ].
  apply logs_bind; [ apply logs_unpack_pipeline_parameters | intros m ].
  apply logs_bind; [ apply logs_lift | intros _; apply logs_ret ].
Qed.

Lemma reads_only_validate_recurring_run ids found spec :
  reads_only (validate_recurring_run env ids found spec).
Proof.
  unfold validate_recurring_run.
  destruct (str_in _ _); [ apply reads_only_raise | ].
  destruct (negb _); [ apply reads_only_raise | ].
  apply reads_only_bind; [ apply reads_only_download | ].
  intros [ path | ]; [ | apply reads_only_raise ].
  destruct (endswith _ _); [ | apply reads_only_raise ].
  apply reads_only_bind; [ apply reads_only_lift | ].
  intros [ b | valid parameters ]; [ apply reads_only_raise | ].
  destruct (negb valid); [ apply reads_only_raise | ].
  apply reads_only_bind; [ apply reads_only_unpack_pipeline_parameters | intros m ].
  apply reads_only_bind; [ apply reads_only_lift | intros _; apply reads_only_ret ].
Qed.

Lemma logs_validate_recurring_runs ids specs :
  forall found, logs is_download (validate_recurring_runs env ids specs found).
Proof.
  induction specs as [ | spec rest IH ]; intros found; simpl.
  - apply logs_ret.
  - apply logs_bind; [ apply logs_validate_recurring_run | intros v ].
    apply logs_bind; [ apply IH | intros vs; apply logs_ret ].
Qed.

Lemma reads_only_validate_recurring_runs ids specs :
  forall found, reads_only (validate_recurring_runs env ids specs found).
Proof.
  induction specs as [ | spec rest IH ]; intros found; simpl.
  - apply reads_only_ret.
  - apply reads_only_bind; [ apply reads_only_validate_recurring_run | intros v ].
    apply reads_only_bind; [ apply IH | intros vs; apply reads_only_ret ].
Qed.

Lemma logs_read_pages name tokens :
  forall acc, logs on_jobs (read_pages name tokens acc).
Proof.
  induction tokens as [ | t rest IH ]; intros acc; simpl.
  - apply logs_ret.
  - apply logs_bind; [ now apply logs_api_call | intros js; apply IH ].
Qed.

Lemma logs_get_existing_recurring_runs name :
  logs on_jobs (get_existing_recurring_runs name).
Proof.
  unfold get_existing_recurring_runs.
  apply (logs_state on_jobs (fun s0 => bind (read_pages name _ []) _)).
  intros s0. apply logs_bind; [ apply logs_read_pages | intros l; apply logs_ret ].
Qed.

Lemma logs_create_new_run ids run latest existing :
  logs on_jobs (create_new_run env args ids run latest existing).
Proof.
  unfold create_new_run.
  apply (logs_state on_jobs
           (fun s0 => match lookup ids _ with None => _ | Some e => _ end)).
  intros s0. destruct (lookup ids _); [ | apply logs_raise ].
  apply logs_bind; [ now apply logs_api_call | intros j ].
  apply logs_bind.
  - destruct latest; [ now apply logs_api_call | apply logs_ret ].
  - intros _. apply logs_bind; [ | intros _; apply logs_ret ].
    destruct (job_enabled _); [ now apply logs_api_call | apply logs_ret ].
Qed.

Lemma logs_reconcile_recurring_run ids run :
  logs on_jobs (reconcile_recurring_run env args ids run).
Proof.
  unfold reconcile_recurring_run.
  apply logs_bind; [ apply logs_get_existing_recurring_runs | intros existing ].
  apply logs_bind; [ apply logs_lift | intros utd ].
  apply logs_bind.
  { apply logs_for_each. intros j. destruct (ApiJob.enabled j);
      [ now apply logs_api_call | apply logs_ret ]. }
  intros _. apply logs_bind.
  { destruct utd; [ | apply logs_ret ]. destruct (latest_of existing); [ | apply logs_ret ].
    unfold reconcile_enabled. destruct (_ && _); [ now apply logs_api_call | ].
    destruct (_ && _); [ now apply logs_api_call | apply logs_ret ]. }
  intros _. apply logs_bind.
  { destruct (negb utd); [ apply logs_create_new_run | apply logs_ret ]. }
  intros existing'. unfold delete_old_runs.
  destruct (Z.eqb _ _); [ apply logs_ret | ].
  apply logs_for_each. intros j. now apply logs_api_call.
Qed.

Lemma logs_reconcile_recurring_runs ids runs :
  logs on_jobs (reconcile_recurring_runs env args ids runs).
Proof.
  apply logs_for_each. intros run.
  destruct (dry_run args); [ apply logs_ret | apply logs_reconcile_recurring_run ].
Qed.


Lemma validate_recurring_runs_length ids specs :
  forall found s validated s',
    validate_recurring_runs env ids specs found s = (Ok validated, s') ->
    List.length validated = List.length specs.
Proof.
  induction specs as [ | spec rest IH ]; intros found s validated s'; simpl.
  - unfold ret. intros [= <- _]. reflexivity.
  - unfold bind.
    destruct (validate_recurring_run env ids found spec s) as [[v | e] s1]; [ | discriminate ].
    destruct (validate_recurring_runs env ids rest _ s1) as [[vs | e] s2] eqn:E; [ | discriminate ].
    unfold ret. intros [= <- _]. simpl. f_equal. eapply IH, E.
Qed.

Lemma reconcile_experiments_dry_run experiments :
  dry_run args = true ->
  forall ids s,
    reconcile_experiments args experiments ids s = (Ok (skipped experiments ids), s).
Proof.
  intros Hdry. induction experiments as [ | spec rest IH ]; intros ids s; simpl.
  - reflexivity.
  - rewrite Hdry. apply IH.
Qed.

Lemma reconcile_recurring_runs_dry_run ids runs :
  dry_run args = true ->
  forall s, reconcile_recurring_runs env args ids runs s = (Ok tt, s).
Proof.
  intros Hdry. unfold reconcile_recurring_runs. rewrite Hdry.
  induction runs as [ | run rest IH ]; intros s; simpl; [ reflexivity | ].
  unfold bind, ret. simpl. apply IH.
Qed.

(** C1.  The remote calls of a run of [main] come in three blocks, in this
    order: calls on experiments, downloads of pipeline files, calls on
    jobs.  So experiments are looked up, created and unarchived before the
    recurring runs are validated; but a call on a job (list, create,
    enable, disable, delete) is made only when the experiments were
    reconciled and every declared recurring run has passed validation. *)
Theorem jobs_reconciled_after_validation experiments recurring_runs s :
  exists e v j,
    calls_since s (snd (main env args experiments recurring_runs s)) = e ++ v ++ j /\
    Forall (fun c => on_experiments c = true) e /\
    Forall (fun c => is_download c = true) v /\
    Forall (fun c => on_jobs c = true) j /\
    (j <> [] ->
     exists ids s1 validated s2,
       reconcile_experiments args experiments [] s = (Ok ids, s1) /\
       validate_recurring_runs env ids recurring_runs [] s1 = (Ok validated, s2) /\
       List.length validated = List.length recurring_runs).
Proof.
  unfold main, bind.
  destruct (logs_reconcile_experiments experiments [] s) as (e & Ee & Fe).
  destruct (reconcile_experiments args experiments [] s) as [[ids | x] s1] eqn:E1; simpl in Ee.
  - destruct (logs_validate_recurring_runs ids recurring_runs [] s1) as (v & Ev & Fv).
    destruct (validate_recurring_runs env ids recurring_runs [] s1)
      as [[validated | x] s2] eqn:E2; simpl in Ev.
    + destruct (logs_reconcile_recurring_runs ids validated s2) as (j & Ej & Fj).
      exists e, v, j. split; [ | split; [ exact Fe | split; [ exact Fv | split; [ exact Fj | ] ] ] ].
      * apply calls_since_app. rewrite Ej, Ev, Ee, <- !app_assoc. reflexivity.
      * intros _. exists ids, s1, validated, s2.
        split; [ first [ exact E1 | reflexivity ] | split; [ exact E2 | ] ].
        eapply validate_recurring_runs_length, E2.
    + exists e, v, []. split; [ | split; [ exact Fe | split; [ exact Fv | split ] ] ].
      * apply calls_since_app. simpl. rewrite Ev, Ee, app_nil_r, <- app_assoc. reflexivity.
      * constructor.
      * congruence.
  - exists e, [], []. split; [ | split; [ exact Fe | split; [ constructor | split ] ] ].
    + apply calls_since_app. simpl. now rewrite app_nil_r.
    + constructor.
    + congruence.
Qed.

(** C2.  With [--dry-run], [main] is the validation of the recurring runs
    and nothing else: it ends as the validation ends, the platform is
    left as it was, and the only remote calls are downloads of pipeline
    files.  No call reaches the platform, mutating or not: the jobs are
    not listed, so no declared run is compared with a stored one. *)
Theorem dry_run_only_validates experiments recurring_runs s :
  dry_run args = true ->
  let validation :=
    validate_recurring_runs env (skipped experiments []) recurring_runs [] s in
  main env args experiments recurring_runs s =
    (match fst validation with Ok _ => Ok tt | Raise e => Raise e end, snd validation) /\
  remote (snd (main env args experiments recurring_runs s)) = remote s /\
  Forall (fun c => is_download c = true)
         (calls_since s (snd (main env args experiments recurring_runs s))).
Proof.
  intros Hdry validation.
  assert (E : main env args experiments recurring_runs s =
              (match fst validation with Ok _ => Ok tt | Raise e => Raise e end,
               snd validation)).
  { unfold main, bind. rewrite (reconcile_experiments_dry_run _ Hdry).
    subst validation.
    destruct (validate_recurring_runs env _ recurring_runs [] s) as [[validated | x] s1];
      simpl; [ | reflexivity ].
    now rewrite (reconcile_recurring_runs_dry_run _ _ Hdry). }
  split; [ exact E | ]. rewrite E. simpl. subst validation. split.
  - apply reads_only_validate_recurring_runs.
  - destruct (logs_validate_recurring_runs (skipped experiments []) recurring_runs [] s)
      as (v & Ev & Fv).
    now rewrite (calls_since_app _ _ _ Ev).
Qed.

End Phases.

End MonadFacts.

(* ================================================================== *)
(** * Facts about the platform                                       *)
(* ================================================================== *)

Module PlatformFacts.

Import Document Python Naming Platform Reconciler MonadFacts.

Lemma with_failing_after_same p b : failing_after p = b -> with_failing_after b p = p.
Proof. destruct p. simpl. now intros ->. Qed.

Lemma find_job_present id p : In id (ids (jobs p)) -> find_job id p <> None.
Proof.
  unfold find_job, ids. intros H. apply in_map_iff in H. destruct H as (j & <- & Hj).
  intros E. apply (find_none _ _ E) in Hj. now rewrite Nat.eqb_refl in Hj.
Qed.



(** ** Pages *)

Lemma concat_pages_from {A} size (xs : list A) :
  forall room page, List.concat (pages_from size room page xs) = rev page ++ xs.
Proof.
  induction xs as [ | x rest IH ]; intros room page; simpl.
  - reflexivity.
  - destruct room as [ | room' ]; simpl; rewrite IH; simpl.
    + reflexivity.
    + now rewrite <- app_assoc.
Qed.

Lemma concat_pages {A} size (xs : list A) : List.concat (pages size xs) = xs.
Proof. unfold pages. now rewrite concat_pages_from. Qed.

Lemma concat_nth_seq {A} (l : list (list A)) :
  List.concat (map (fun t => nth t l []) (seq 0 (List.length l))) = List.concat l.
Proof.
  f_equal. apply nth_ext with (d := []) (d' := []).
  - now rewrite length_map, length_seq.
  - intros n Hn. rewrite length_map, length_seq in Hn.
    rewrite (nth_indep _ [] (nth 0 l [])) by now rewrite length_map, length_seq.
    rewrite (map_nth (fun t => nth t l []) (seq 0 (List.length l)) 0 n).
    now rewrite seq_nth.
Qed.

(** ** The sort *)

Lemma insert_run_perm j sorted : Permutation (insert_run j sorted) (j :: sorted).
Proof.
  induction sorted as [ | k rest IH ]; simpl; [ reflexivity | ].
  destruct (String.ltb _ _); [ | reflexivity ].
  rewrite IH. apply perm_swap.
Qed.

Lemma newest_first_perm js : Permutation (newest_first js) js.
Proof.
  induction js as [ | j js IH ]; simpl; [ reflexivity | ].
  rewrite insert_run_perm. now constructor.
Qed.


(** ** Calls to a platform that answers every call *)

Lemma api_call_reliable {A} c (serve : Platform.t -> outcome A * Platform.t) s :
  reliable s ->
  api_call c serve s =
  (fst (serve (remote s)),
   {| remote := snd (serve (remote s)); calls := calls s ++ [c]; now := now s |}).
Proof.
  unfold reliable, api_call. intros H. rewrite H. simpl.
  rewrite (with_failing_after_same _ _ H). now destruct (serve (remote s)).
Qed.

Lemma read_pages_reliable name tokens :
  forall acc s,
    reliable s ->
    read_pages name tokens acc s =
    (Ok (acc ++ filter (fun j => matches_job name (ApiJob.name j))
                  (List.concat (map (fun t => nth t (pages page_size (jobs (remote s))) [])
                                    tokens))),
     {| remote := remote s; calls := calls s ++ map ListJobs tokens; now := now s |}).
Proof.
  induction tokens as [ | t rest IH ]; intros acc s H; simpl.
  - unfold ret. rewrite !app_nil_r. now destruct s.
  - unfold bind. rewrite (api_call_reliable _ _ _ H). simpl.
    rewrite IH by exact H. simpl.
    rewrite filter_app, <- !app_assoc. reflexivity.
Qed.

Lemma get_existing_recurring_runs_reliable name s :
  reliable s ->
  get_existing_recurring_runs name s =
  (Ok (newest_first (versions_of name (remote s))),
   {| remote := remote s;
      calls := calls s ++ map ListJobs
                 (seq 0 (List.length (pages page_size (jobs (remote s)))));
      now := now s |}).
Proof.
  intros H. unfold get_existing_recurring_runs, bind.
  rewrite (read_pages_reliable _ _ _ _ H). unfold ret. simpl.
  now rewrite concat_nth_seq, concat_pages.
Qed.


Lemma enable_job_reliable id s :
  reliable s -> In id (ids (jobs (remote s))) ->
  enable_job id s =
  (Ok tt,
   {| remote :=
        with_jobs (map (fun j => if Nat.eqb (ApiJob.id j) id
                                 then ApiJob.with_enabled true j else j)
                       (jobs (remote s))) (remote s);
      calls := calls s ++ [EnableJob id]; now := now s |}).
Proof.
  intros H Hin. unfold enable_job. rewrite (api_call_reliable _ _ _ H).
  unfold set_enabled. destruct (find_job id (remote s)) eqn:E; [ reflexivity | ].
  now apply find_job_present in Hin.
Qed.

Lemma delete_job_reliable id s :
  reliable s -> In id (ids (jobs (remote s))) ->
  delete_job id s =
  (Ok tt,
   {| remote :=
        with_jobs (filter (fun j => negb (Nat.eqb (ApiJob.id j) id)) (jobs (remote s)))
                  (remote s);
      calls := calls s ++ [DeleteJob id]; now := now s |}).
Proof.
  intros H Hin. unfold delete_job. rewrite (api_call_reliable _ _ _ H).
  unfold delete. destruct (find_job id (remote s)) eqn:E; [ reflexivity | ].
  now apply find_job_present in Hin.
Qed.


End PlatformFacts.

(* ================================================================== *)
(** * Facts about one pass over a recurring run                      *)
(* ================================================================== *)

Module PassFacts.

Import Document Python Naming Platform Reconciler MonadFacts PlatformFacts.

Lemma mutations_listing tokens : mutations (map ListJobs tokens) = [].
Proof. unfold mutations. induction tokens; simpl; auto. Qed.

Lemma mutations_app l1 l2 : mutations (l1 ++ l2) = mutations l1 ++ mutations l2.
Proof. apply filter_app. Qed.















Section Pass.

Variable env : Environment.
Variable args : Arguments.

(** C5.  On a platform that answers every call and stores no version of
    a job declared enabled, one pass creates one version, disabled, then
    enables it, and disables nothing.  It deletes nothing unless
    [keep_history] is [0]; then it deletes the version it has just
    created. *)
Theorem first_version_create_then_enable ids run s experiment_id :
  let spec := recurring_run_spec run in
  let new_id := next_id (remote s) in
  let a := creation_arguments args experiment_id run
             (get_new_job_name (now s) (job_name (job spec))) in
  failing_after (remote s) = None ->
  versions_of (job_name (job spec)) (remote s) = [] ->
  job_enabled (job spec) = true ->
  lookup ids (job_experiment (job spec)) = Some experiment_id ->
  (-1 <= keep_history_of spec)%Z ->
  exists s',
    reconcile_recurring_run env args ids run s = (Ok tt, s') /\
    arg_enabled a = false /\
    mutations (calls_since s s') =
      [CreateRecurringRun a; EnableJob new_id]
      ++ (if Z.eqb (keep_history_of spec) 0 then [DeleteJob new_id] else []).
Proof.
  intros spec new_id a Hrel Hnone Hen Hexp Hkeep.
  unfold reconcile_recurring_run, bind.
  rewrite (get_existing_recurring_runs_reliable _ _ Hrel).
  fold spec. rewrite Hnone. simpl. unfold create_new_run, bind. simpl.
  fold spec. rewrite Hexp, Hen.
  unfold create_recurring_run. rewrite api_call_reliable by exact Hrel. simpl.
  rewrite enable_job_reliable; [ | exact Hrel | simpl; now left ].
  unfold ret at 1. simpl.
  unfold delete_old_runs.
  destruct (Z.eqb_spec (keep_history_of spec) (-1)) as [E1 | N1].
  - rewrite E1. simpl. unfold ret. eexists. split; [ reflexivity | ].
    split; [ reflexivity | ].
    erewrite calls_since_app; [ | simpl; rewrite <- !app_assoc; reflexivity ].
    rewrite mutations_app, mutations_listing. reflexivity.
  - destruct (Z.eqb_spec (keep_history_of spec) 0) as [E0 | N0].
    + rewrite E0. simpl.
      unfold bind.
      rewrite delete_job_reliable;
        [ | exact Hrel | simpl; rewrite Nat.eqb_refl; simpl; now left ].
      unfold ret. eexists. split; [ reflexivity | ]. split; [ reflexivity | ].
      erewrite calls_since_app; [ | simpl; rewrite <- !app_assoc; reflexivity ].
      rewrite mutations_app, mutations_listing. reflexivity.
    + assert (Hs : forall x : ApiJob.t, slice_from [x] (keep_history_of spec) = []).
      { intros x. unfold slice_from.
        destruct (Z.ltb_spec (keep_history_of spec) 0); [ lia | ].
        destruct (Z.to_nat (keep_history_of spec)) eqn:E; [ lia | ]. simpl.
        now destruct n. }
      rewrite Hs. simpl. unfold ret. eexists. split; [ reflexivity | ].
      split; [ reflexivity | ].
      erewrite calls_since_app; [ | simpl; rewrite <- !app_assoc; reflexivity ].
      rewrite mutations_app, mutations_listing. reflexivity.
Qed.




End Pass.

End PassFacts.

(* ================================================================== *)
(** * Facts about enabling and disabling                             *)
(* ================================================================== *)

Module SwitchFacts.

Import Document Python Naming Platform Reconciler MonadFacts PlatformFacts PassFacts.

(** ** One call to a platform that may fail *)

Lemma api_call_cases {A} c (serve : Platform.t -> outcome A * Platform.t) s :
  exists r s',
    api_call c serve s = (r, s') /\
    calls s' = calls s ++ [c] /\
    now s' = now s /\
    ((r = Raise ApiException /\ remote s' = remote s) \/
     (exists b, (r, remote s') = serve (with_failing_after b (remote s)))).
Proof.
  unfold api_call. destruct (failing_after (remote s)) as [ [ | n ] | ].
  - eexists _, _. split; [ reflexivity | ]. simpl. auto.
  - destruct (serve _) as [r p] eqn:E. eexists _, _. split; [ reflexivity | ].
    simpl. repeat split. right. eexists. now rewrite E.
  - destruct (serve _) as [r p] eqn:E. eexists _, _. split; [ reflexivity | ].
    simpl. repeat split. right. eexists. now rewrite E.
Qed.

(** [enable_job] and [disable_job]: the call is recorded; either it fails
    and the jobs are as before, or it returns and the job is switched. *)
Lemma switch_cases (b : bool) id s :
  exists r s',
    (if b then enable_job id s else disable_job id s) = (r, s') /\
    calls s' = calls s ++ [if b then EnableJob id else DisableJob id] /\
    now s' = now s /\
    next_id (remote s') = next_id (remote s) /\
    ((r = Raise ApiException /\ jobs (remote s') = jobs (remote s)) \/
     (r = Ok tt /\ jobs (remote s') = switch id b (jobs (remote s)))).
Proof.
  assert (H : forall c, exists r s',
             api_call c (set_enabled id b) s = (r, s') /\
             calls s' = calls s ++ [c] /\ now s' = now s /\
             next_id (remote s') = next_id (remote s) /\
             ((r = Raise ApiException /\ jobs (remote s') = jobs (remote s)) \/
              (r = Ok tt /\ jobs (remote s') = switch id b (jobs (remote s))))).
  { intros c. destruct (api_call_cases c (set_enabled id b) s)
      as (r & s' & E & C & T & [ [-> R] | (bud & S) ]).
    - exists (Raise ApiException), s'. rewrite R. auto 10.
    - exists r, s'. repeat split; try assumption.
      + unfold set_enabled in S. destruct (find_job _ _); injection S as -> ->; reflexivity.
      + unfold set_enabled in S. destruct (find_job _ _); injection S as -> ->; simpl; auto. }
  destruct b; apply H.
Qed.


(** ** Enabled versions *)

Lemma enabled_among_In name js v :
  In v (enabled_among name js) <->
  In v js /\ matches_job name (ApiJob.name v) = true /\ ApiJob.enabled v = true.
Proof. unfold enabled_among. rewrite !filter_In. tauto. Qed.






Lemma switch_In id b js v :
  In v (switch id b js) ->
  exists j, In j js /\
    ((ApiJob.id j = id /\ v = ApiJob.with_enabled b j) \/ (ApiJob.id j <> id /\ v = j)).
Proof.
  unfold switch. intros H. apply in_map_iff in H. destruct H as (j & <- & Hj).
  exists j. split; [ exact Hj | ].
  destruct (Nat.eqb_spec (ApiJob.id j) id); auto.
Qed.




(** What is still enabled after the loop over the other runs was enabled
    before it and is none of the runs the loop went through. *)
Lemma disable_each_survivors (runs : list ApiJob.t) :
  forall s s',
    for_each runs
      (fun r => if ApiJob.enabled r then disable_job (ApiJob.id r) else ret tt) s
    = (Ok tt, s') ->
    forall v, In v (jobs (remote s')) -> ApiJob.enabled v = true ->
    exists u,
      In u (jobs (remote s)) /\ ApiJob.enabled u = true /\
      ApiJob.id u = ApiJob.id v /\ ApiJob.name u = ApiJob.name v /\
      forall r, In r runs -> ApiJob.enabled r = true -> ApiJob.id r <> ApiJob.id u.
Proof.
  induction runs as [ | r rest IH ]; intros s s' E v Hv He; simpl in E.
  - injection E as <-. exists v. repeat split; auto.
  - unfold bind in E. destruct (ApiJob.enabled r) eqn:Er.
    + destruct (switch_cases false (ApiJob.id r) s)
        as (r1 & s1 & E1 & _ & _ & _ & [ [-> J1] | [-> J1] ]);
        simpl in E1; rewrite E1 in E; [ discriminate E | ].
      destruct (IH _ _ E v Hv He) as (u1 & Hu1 & Eu1 & Iu1 & Nu1 & Ru1).
      rewrite J1 in Hu1. apply switch_In in Hu1.
      destruct Hu1 as (u & Hu & [ [_ ->] | [Hid ->] ]); [ discriminate Eu1 | ].
      exists u. repeat split; auto.
      intros r' [ <- | Hr' ] Hen; [ congruence | now apply Ru1 ].
    + unfold ret at 1 in E.
      destruct (IH _ _ E v Hv He) as (u & Hu & Eu & Iu & Nu & Ru).
      exists u. repeat split; auto.
      intros r' [ <- | Hr' ] Hen; [ congruence | now apply Ru ].
Qed.

(** When the loop over [existing_scheduled_runs[1:]] has run, only the
    latest run may be enabled. *)
Lemma disable_other_runs_leaves_latest name s s' :
  let existing := newest_first (versions_of name (remote s)) in
  disable_other_runs existing s = (Ok tt, s') ->
  forall v, In v (enabled_versions name (remote s')) ->
            option_map ApiJob.id (latest_of existing) = Some (ApiJob.id v).
Proof.
  intros existing E v Hv.
  apply (enabled_among_In name (jobs (remote s'))) in Hv. destruct Hv as (Hin & Hm & He).
  destruct (disable_each_survivors _ _ _ E v Hin He) as (u & Hu & Eu & Iu & Nu & Ru).
  assert (Hex : In u existing).
  { eapply Permutation_in; [ symmetry; apply newest_first_perm | ].
    apply filter_In. split; [ exact Hu | now rewrite Nu ]. }
  destruct existing as [ | l rest ]; [ contradiction | ].
  destruct Hex as [ -> | Hrest ]; [ simpl; now rewrite Iu | ].
  exfalso. now apply (Ru u Hrest Eu).
Qed.

End SwitchFacts.

(* ================================================================== *)
(** * Facts about versioned names                                    *)
(* ================================================================== *)

Module NamingFacts.

Import Naming.

(** ** Strings *)






(** ** The timestamp *)









(** ** The pattern *)



End NamingFacts.

(* ================================================================== *)
(** * Facts about the replacement of a stale version                 *)
(* ================================================================== *)

Module ReplaceFacts.

Import Document Python Naming Platform Reconciler.
Import MonadFacts PlatformFacts PassFacts SwitchFacts NamingFacts.

(** ** The listing on a platform that may fail *)




(** ** The loop over the other runs when none of them is enabled *)




(** ** Switching a job on *)







(** ** Deleting on a platform that may fail *)









Section Replace.

Variable env : Environment.
Variable args : Arguments.





End Replace.

End ReplaceFacts.


(* ================================================================== *)
(** * Examples                                                       *)
(* ================================================================== *)

Module Examples.

Import Document Python Naming Platform Reconciler.
Import DocumentFacts ValidatorFacts MonadFacts PlatformFacts PassFacts SwitchFacts.
Import NamingFacts ReplaceFacts.
Import Scenario.

(** ** Documents *)

Ltac split_on_keys :=
  cbn [has_key str_in map existsb fst dict_get];
  repeat match goal with
  | |- context [String.eqb ?a ?b] =>
      destruct (String.eqb_spec a b); subst; try congruence
  end.

(** C6, on a document that holds a NaN under an ignored key. *)
Lemma compare_workflows_symmetric_reflexive_witness :
  finite_floats ["stamp"] sample = true /\
  compare_workflows sample sample ["stamp"] default_float_tol = true.
Proof.
  split; [ reflexivity | ].
  apply (compare_workflows_symmetric_reflexive sample sample ["stamp"] default_float_tol).
  reflexivity.
Defined.

(** C6.  A document that holds a NaN, or an infinity, outside ignored
    keys does not compare equal to itself. *)
Lemma compare_workflows_not_reflexive :
  compare_workflows (PDict [ ("x", PFloat nan) ]) (PDict [ ("x", PFloat nan) ])
    default_ignore_keys default_float_tol = false /\
  compare_workflows (PDict [ ("x", PFloat infinity) ]) (PDict [ ("x", PFloat infinity) ])
    default_ignore_keys default_float_tol = false.
Proof. split; reflexivity. Qed.

Lemma with_and_without_stamp : differ_only_at "stamp" with_stamp without_stamp.
Proof.
  apply differ_dict. intros key Hkey. split_on_keys.
  - split; [ reflexivity | ].
    apply differ_list. constructor; [ | constructor ].
    apply differ_dict. intros key' Hkey'. split_on_keys.
    all: split; [ reflexivity | apply differ_same ].
  - split; [ reflexivity | apply differ_same ].
Defined.

(** C7, on two documents that differ under ["stamp"] at two depths. *)
Lemma ignored_subtrees_compare_equal_witness :
  In "stamp" ["stamp"] /\
  differ_only_at "stamp" with_stamp without_stamp /\
  finite_floats ["stamp"] with_stamp = true /\
  compare_workflows with_stamp without_stamp ["stamp"] default_float_tol = true.
Proof.
  split; [ now left | ]. split; [ exact with_and_without_stamp | ].
  split; [ reflexivity | ].
  apply (ignored_subtrees_compare_equal ["stamp"] "stamp" with_stamp without_stamp).
  - now left.
  - exact with_and_without_stamp.
  - reflexivity.
Defined.

(** C7.  Two documents that differ under the ignored key only, and share
    an infinity, compare unequal. *)
Lemma ignored_subtree_with_infinity :
  In "stamp" ["stamp"] /\
  differ_only_at "stamp"
    (PDict [ ("x", PFloat infinity); ("stamp", PInt 1) ])
    (PDict [ ("x", PFloat infinity); ("stamp", PInt 2) ]) /\
  compare_workflows
    (PDict [ ("x", PFloat infinity); ("stamp", PInt 1) ])
    (PDict [ ("x", PFloat infinity); ("stamp", PInt 2) ])
    ["stamp"] default_float_tol = false.
Proof.
  split; [ now left | ]. split; [ | reflexivity ].
  apply differ_dict. intros key Hkey. split_on_keys.
  all: split; [ reflexivity | apply differ_same ].
Qed.

(** C10, on the integer [1] against the float [1.0] and on [True] against
    the integer [1]: the values are equal for the test of equality and
    within the tolerance for the rule for floats, and yet they compare
    unequal. *)
Lemma different_types_compare_unequal_witness :
  type_of (PInt 1) <> type_of (PFloat 1) /\
  type_of (PBool true) <> type_of (PInt 1) /\
  scalar_eqb (PInt 1) (PFloat 1) = true /\
  scalar_eqb (PBool true) (PInt 1) = true /\
  float_rule default_float_tol 1 (PInt 1) = true /\
  compare_workflows (PInt 1) (PFloat 1) default_ignore_keys default_float_tol = false /\
  compare_workflows (PFloat 1) (PInt 1) default_ignore_keys default_float_tol = false /\
  compare_workflows (PBool true) (PInt 1) default_ignore_keys default_float_tol = false.
Proof.
  split; [ discriminate | ]. split; [ discriminate | ].
  split; [ reflexivity | ]. split; [ reflexivity | ]. split; [ reflexivity | ].
  split; [ | split ].
  - refine (proj1 (different_types_compare_unequal (PInt 1) (PFloat 1) default_ignore_keys
                     default_float_tol _)).
    discriminate.
  - refine (proj1 (different_types_compare_unequal (PFloat 1) (PInt 1) default_ignore_keys
                     default_float_tol _)).
    discriminate.
  - refine (proj1 (different_types_compare_unequal (PBool true) (PInt 1) default_ignore_keys
                     default_float_tol _)).
    discriminate.
Defined.

(** ** The validator *)

(** C8, on a text that no parser accepts. *)
Lemma unparsable_manifest_returns_lone_false_witness :
  yaml_safe_load env "{" = None /\
  Validator.validate_workflow_yaml (yaml_safe_load env) (json_loads env) "{" =
  Ok (Validator.ReturnedBool false).
Proof.
  split; [ reflexivity | ].
  apply (unparsable_manifest_returns_lone_false (yaml_safe_load env) (json_loads env) "{").
  reflexivity.
Defined.

(** The caller unpacks the result of [validate_workflow_yaml] as a pair:
    on a manifest that does not parse, [main] stops with a [TypeError],
    after the experiments were reconciled. *)
Lemma unparsable_manifest_stops_with_type_error :
  let result := main env wet experiments [spec "broken.yaml" None] (start [] 0 None) in
  read_file env ".cache/broken.yaml" = "{" /\
  fst result = Raise TypeError /\
  mutations (calls (snd result)) = [ CreateExperiment "e" ""; UnarchiveExperiment 0 ].
Proof. vm_compute. repeat split; reflexivity. Qed.

(** ** The reconciler *)

(** C1.  A configuration whose only recurring run fails validation, its
    pipeline file being unavailable: the experiment has been created and
    unarchived by then. *)
Lemma experiments_mutated_before_validation :
  let result := main env wet experiments [spec "missing.yaml" None] (start [] 0 None) in
  fst result = Raise (ValueError PipelineSourceUnavailable) /\
  calls (snd result) =
    [ GetExperiment "e"; CreateExperiment "e" ""; UnarchiveExperiment 0;
      GithubDownload "o" "r" "main" "missing.yaml" ].
Proof. vm_compute. split; reflexivity. Qed.

(** C2, on the scenario: a dry run over a platform that stores a stale
    version leaves the platform as it was. *)
Lemma dry_run_only_validates_witness :
  dry_run dry = true /\
  remote (snd (main env dry experiments [spec "a.yaml" None] (start [first_version] 1 None)))
  = remote (start [first_version] 1 None).
Proof.
  split; [ reflexivity | ].
  apply (dry_run_only_validates env dry experiments [spec "a.yaml" None] (start [first_version] 1 None)).
  reflexivity.
Defined.

(** C2.  A dry run over a platform that stores a stale version makes one
    remote call, the download; the same run without [--dry-run] lists the
    jobs and replaces the stale version. *)
Lemma dry_run_reads_no_live_state :
  let s := start [first_version] 1 None in
  main env dry experiments [spec "a.yaml" None] s =
  (Ok tt, {| remote := remote s; calls := [ GithubDownload "o" "r" "main" "a.yaml" ];
             now := now s |}) /\
  filter on_jobs (calls (snd (main env wet experiments [spec "a.yaml" None] s))) =
  [ ListJobs 0;
    CreateRecurringRun
      (creation_arguments wet (Some 1) (validated None) "GIT::a__2024-03-04T05-06-07Z");
    DisableJob 0; EnableJob 2 ].
Proof. vm_compute. split; reflexivity. Qed.


(** The pass of the scenario on a platform that fails its first, second,
    third or fourth call, or no call of the five: the identifiers of the
    versions that are enabled when the pass ends.  The calls are the
    listing, the creation, the disabling of the previous version and the
    enabling of the new one. *)
Lemma replacement_moments :
  map (fun budget =>
         map ApiJob.id
           (enabled_versions "a"
              (remote (snd (reconcile_recurring_run env wet names (validated None)
                              (start [first_version] 1 (Some budget)))))))
      [0; 1; 2; 3; 4]
  = [ [0]; [0]; [0]; []; [1] ].
Proof. vm_compute. reflexivity. Qed.



(** C5, on the scenario: no stored version, no [keep_history]. *)
Lemma first_version_witness :
  let s := start [] 0 None in
  failing_after (remote s) = None /\
  versions_of "a" (remote s) = [] /\
  job_enabled (job (spec "a.yaml" None)) = true /\
  lookup names "e" = Some (Some 7) /\
  (-1 <= keep_history_of (spec "a.yaml" None))%Z /\
  exists s',
    reconcile_recurring_run env wet names (validated None) s = (Ok tt, s') /\
    mutations (calls_since s s') =
      [ CreateRecurringRun
          (creation_arguments wet (Some 7) (validated None) "GIT::a__2024-03-04T05-06-07Z");
        EnableJob 0 ].
Proof.
  assert (K : (-1 <= keep_history_of (spec "a.yaml" None))%Z) by (vm_compute; discriminate).
  split; [ reflexivity | ]. split; [ reflexivity | ]. split; [ reflexivity | ].
  split; [ reflexivity | ]. split; [ exact K | ].
  destruct (first_version_create_then_enable env wet names (validated None) (start [] 0 None) (Some 7)
              eq_refl eq_refl eq_refl eq_refl K) as (s' & E & _ & M).
  exists s'. split; [ exact E | exact M ].
Defined.

(** C5.  With [keep_history = 0] and no stored version, the pass creates
    a version, enables it and deletes it. *)
Lemma keep_history_zero_deletes_new_version :
  let result :=
    reconcile_recurring_run env wet names (validated (Some 0%Z)) (start [] 0 None) in
  fst result = Ok tt /\
  mutations (calls (snd result)) =
    [ CreateRecurringRun
        (creation_arguments wet (Some 7) (validated (Some 0%Z))
           "GIT::a__2024-03-04T05-06-07Z");
      EnableJob 0; DeleteJob 0 ].
Proof. vm_compute. split; reflexivity. Qed.

(** C9.  A stored job whose name is a versioned name of the job ["a"]
    followed by a newline is taken for a version of ["a"]: the pass over
    ["a"] disables it. *)
Lemma trailing_newline_name_is_touched :
  let result :=
    reconcile_recurring_run env wet names (validated None)
      (start [second_version; stray] 2 None) in
  ApiJob.name stray = String.append "GIT::a__2024-01-01T00-00-00Z" (String newline EmptyString) /\
  matches_job "a" (ApiJob.name stray) = true /\
  fst result = Ok tt /\
  mutations (calls (snd result)) =
    [ DisableJob (ApiJob.id stray);
      CreateRecurringRun
        (creation_arguments wet (Some 7) (validated None) "GIT::a__2024-03-04T05-06-07Z");
      DisableJob 1; EnableJob 2 ].
Proof. vm_compute. repeat split; reflexivity. Qed.

End Examples.
